(** * The speller of Listen, Attend and Spell and the character-distance scorer

    A shallow embedding of [models/speller.py] and [utils/distance.py].
    [models/attention.py], [models/beam.py] and [utils/label.py] are not
    among the sources: [Attention], [Beam] and [label_to_string] are
    modelled from the specification, and every such definition says so.

    Conventions of the embedding.
    - A float is a rational ([Q]): no NaN, no infinities, no rounding.
    - A Python exception is a value of [exn]; a call that may raise returns
      a [result].  Code that also reads the ambient random number
      generators ([random.random()], [uniform_], dropout) lives in the monad
      [M], which threads the two generators and keeps their state when an
      exception is raised.
    - A pseudo-random generator is a tape of numbers of [0,1) with a read
      cursor; a draw reads the tape at the cursor and advances it.
    - Tensors that the decoder indexes ([inputs], [listener_outputs]) carry
      their sizes, so a tensor with a zero-sized dimension is representable;
      tensors the decoder computes are nested lists.
    - Tensor operations the decoder calls ([view], [stack], [topk], [max],
      indexing) raise where torch raises, and so do the torch layers:
      [nn.Embedding] raises [IndexError] on an index outside its table;
      [nn.GRU] and [nn.RNN] raise [RuntimeError] on a state tensor that
      is not of shape [num_layers, batch, hidden_size] and on a sequence
      of length zero; [nn.LSTM] takes its state as a pair and indexes the
      single state tensor the decoder passes; the constructors of the
      recurrent modules raise [ValueError] on [num_layers = 0],
      [hidden_size = 0] and a dropout probability outside [0, 1].
    - The weights have the shapes their layers allocate, so that the
      embedding of a token has the width the recurrent module reads and
      the output of the recurrent module the width the projection reads;
      no shape check is modelled between these layers.  The recurrent
      module is a function of its weights: the dropout [nn.GRU] applies
      between its layers in training mode is not modelled.
    - The state tensor is stored with the batch dimension outermost; a state
      tensor with an empty batch dimension is the empty list, and is read
      as having the layer count and hidden size of the module it is
      passed to. *)

From Stdlib Require Import String Ascii.
From Stdlib Require Import List Arith ZArith QArith Bool Lia Lqa.
Import ListNotations.

Local Open Scope nat_scope.
Local Open Scope list_scope.

(** ** Exceptions and the decoding monad *)

Inductive exn : Type :=
| AssertionError
| AttributeError
| IndexError
| RuntimeError
| ValueError
| InputError.

Inductive result (A : Type) : Type :=
| Ok (a : A)
| Err (e : exn).

Arguments Ok {A} a.
Arguments Err {A} e.

Definition result_bind {A B} (r : result A) (f : A -> result B) : result B :=
  match r with
  | Ok a => f a
  | Err e => Err e
  end.

Fixpoint result_map {A B} (f : A -> result B) (l : list A) : result (list B) :=
  match l with
  | [] => Ok []
  | x :: l' =>
      result_bind (f x) (fun y =>
      result_bind (result_map f l') (fun ys => Ok (y :: ys)))
  end.

Record Generator : Type := {
  tape : nat -> Q;
  cursor : nat
}.

Definition advance (n : nat) (g : Generator) : Generator :=
  {| tape := tape g; cursor := cursor g + n |}.

(** [py_random] is the generator of Python's [random] module,
    [torch_random] the default generator of torch. *)
Record World : Type := {
  py_random : Generator;
  torch_random : Generator
}.

Definition M (A : Type) : Type := World -> result A * World.

Definition ret {A} (a : A) : M A := fun w => (Ok a, w).

Definition raise {A} (e : exn) : M A := fun w => (Err e, w).

Definition bind {A B} (c : M A) (f : A -> M B) : M B :=
  fun w =>
    match c w with
    | (Ok a, w') => f a w'
    | (Err e, w') => (Err e, w')
    end.

Definition lift {A} (r : result A) : M A := fun w => (r, w).

Notation "x <- c1 ;; c2" := (bind c1 (fun x => c2))
  (at level 61, c1 at next level, right associativity).

Fixpoint mapM {A B} (f : A -> M B) (l : list A) : M (list B) :=
  match l with
  | [] => ret []
  | x :: l' => y <- f x ;; ys <- mapM f l' ;; ret (y :: ys)
  end.

(** [random.random()] *)
Definition random_random : M Q :=
  fun w =>
    (Ok (tape (py_random w) (cursor (py_random w))),
     {| py_random := advance 1 (py_random w); torch_random := torch_random w |}).

Definition torch_draw : M Q :=
  fun w =>
    (Ok (tape (torch_random w) (cursor (torch_random w))),
     {| py_random := py_random w; torch_random := advance 1 (torch_random w) |}).

(** ** Floats, vectors and the tensor operations the decoder uses *)

Definition Qlt_bool (x y : Q) : bool := negb (Qle_bool y x).

Definition vec : Type := list Q.

Definition dot (u v : vec) : Q :=
  fold_right Qplus 0%Q (map (fun p => (fst p * snd p)%Q) (combine u v)).

Definition Qsum (l : list Q) : Q := fold_right Qplus 0%Q l.

Definition vec_scale (c : Q) (v : vec) : vec := map (Qmult c) v.

Fixpoint vec_add (u v : vec) : vec :=
  match u, v with
  | [], _ => v
  | _, [] => u
  | x :: u', y :: v' => (x + y)%Q :: vec_add u' v'
  end.

(** The decoder state tensor of shape [layers, batch, hidden], stored with
    the batch dimension outermost: [nth b h []] is [h[:, b, :]], one vector
    per layer. *)
Definition Hidden : Type := list (list vec).

(** [torch.FloatTensor(layers, batch, hidden).uniform_(lo, hi)]: element
    [(l, b, h)] is filled from the torch generator in memory order. *)
Definition uniform_ (lo hi : Q) (layers batch hidden : nat) : M Hidden :=
  fun w =>
    let g := torch_random w in
    (Ok (map (fun b =>
           map (fun l =>
             map (fun h =>
               (lo + (hi - lo) * tape g (cursor g + (l * batch + b) * hidden + h))%Q)
               (seq 0 hidden))
             (seq 0 layers))
           (seq 0 batch)),
     {| py_random := py_random w;
        torch_random := advance (layers * batch * hidden) g |}).

(** An integer tensor of shape [size0, size1]. *)
Record LongTensor : Type := {
  size0 : nat;
  size1 : nat;
  item : nat -> nat -> nat
}.

Definition rows (t : LongTensor) : list (list nat) :=
  map (fun i => map (item t i) (seq 0 (size1 t))) (seq 0 (size0 t)).

(** [t[:, :-1]] *)
Definition drop_last_column (t : LongTensor) : LongTensor :=
  {| size0 := size0 t; size1 := pred (size1 t); item := item t |}.

(** [t[:, 0].unsqueeze(1)]: indexing an empty dimension raises. *)
Definition first_column (t : LongTensor) : result LongTensor :=
  if size1 t =? 0 then Err IndexError
  else Ok {| size0 := size0 t; size1 := 1; item := fun i _ => item t i 0 |}.

Definition of_rows (n m : nat) (l : list (list nat)) : LongTensor :=
  {| size0 := n; size1 := m; item := fun i j => nth j (nth i l []) 0 |}.

(** A float tensor of shape [dim0, dim1, hidden]: the listener outputs,
    [dim0] the batch size and [dim1] the encoder length. *)
Record FloatTensor3 : Type := {
  dim0 : nat;
  dim1 : nat;
  elt : nat -> nat -> vec
}.

Definition slices (t : FloatTensor3) : list (list vec) :=
  map (fun b => map (elt t b) (seq 0 (dim1 t))) (seq 0 (dim0 t)).

(** Stable descending order on (value, index) pairs: of two equal values the
    one met first stays first. *)
Fixpoint insert_desc (x : Q * nat) (l : list (Q * nat)) : list (Q * nat) :=
  match l with
  | [] => [x]
  | y :: l' =>
      if Qle_bool (fst y) (fst x) then x :: l else y :: insert_desc x l'
  end.

Fixpoint indexed {A} (i : nat) (l : list A) : list (A * nat) :=
  match l with
  | [] => []
  | x :: l' => (x, i) :: indexed (S i) l'
  end.

Definition sort_desc (l : list (Q * nat)) : list (Q * nat) :=
  fold_right insert_desc [] l.

(** [row.topk(k)]: values and indices of the [k] largest entries, equal
    values in index order; [k] larger than the dimension raises. *)
Definition topk (k : nat) (row : list Q) : result (list (Q * nat)) :=
  if length row <? k then Err RuntimeError
  else Ok (firstn k (sort_desc (indexed 0 row))).

Fixpoint argmax_from (i : nat) (best : Q * nat) (l : list Q) : Q * nat :=
  match l with
  | [] => best
  | x :: l' =>
      argmax_from (S i) (if Qlt_bool (fst best) x then (x, i) else best) l'
  end.

(** [row.max(-1)[1]]: the index of the first maximal entry; an empty
    dimension raises. *)
Definition max_index (row : list Q) : result nat :=
  match row with
  | [] => Err IndexError
  | x :: l => Ok (snd (argmax_from 1 (x, 0) l))
  end.

(** [t.max(-1)[1]] on a tensor of shape [batch, steps, vocab] *)
Definition max_last (t : list (list (list Q))) : result (list (list nat)) :=
  result_map (result_map max_index) t.

(** [t.topk(1)[1]] on a tensor of shape [batch, vocab]: shape [batch, 1] *)
Definition topk1_indices (t : list (list Q)) : result LongTensor :=
  result_bind (result_map (topk 1) t) (fun r =>
  Ok (of_rows (length t) 1 (map (map snd) r))).

(** [t.squeeze(1)] on a tensor of shape [batch, 1, vocab] *)
Definition squeeze1 (t : list (list (list Q))) : list (list Q) :=
  map (fun r => nth 0 r []) t.

(** [t[:, di, :]] *)
Definition select1 (di : nat) (t : list (list (list Q))) : list (list Q) :=
  map (fun r => nth di r []) t.

(** [t.size(1)] of a computed tensor *)
Definition computed_size1 (t : list (list (list Q))) : nat :=
  match t with
  | [] => 0
  | r :: _ => length r
  end.

(** [torch.stack(ts, dim=1)] of a Python list of tensors of shape
    [batch, vocab]: an empty list raises, and so do unequal shapes. *)
Definition stack_dim1 (ts : list (list (list Q)))
  : result (list (list (list Q))) :=
  match ts with
  | [] => Err RuntimeError
  | t0 :: _ =>
      if forallb (fun t => length t =? length t0) ts
      then Ok (map (fun b => map (fun t => nth b t []) ts) (seq 0 (length t0)))
      else Err RuntimeError
  end.

Fixpoint chunk {A} (n len : nat) (l : list A) : list (list A) :=
  match n with
  | 0 => []
  | S n' => firstn len l :: chunk n' len (skipn len l)
  end.

(** [t.view(n, len, -1)] of a tensor of shape [n * len, vocab]: the last
    size cannot be inferred when [n * len = 0], and torch raises. *)
Definition view3 (n len : nat) (t : list (list Q))
  : result (list (list (list Q))) :=
  if n * len =? 0 then Err RuntimeError else Ok (chunk n len t).

(** ** The torch layers *)

Record Embedding : Type := {
  num_embeddings : nat;
  embedding_dim : nat;
  table : nat -> vec
}.

(** Every index of [t] is a row of the table. *)
Definition indices_in_range (e : Embedding) (t : LongTensor) : bool :=
  forallb (forallb (fun i => i <? num_embeddings e)) (rows t).

(** [nn.Embedding.forward]: the rows of the table at the indices of [t];
    an index that is not below [num_embeddings] raises. *)
Definition Embedding_forward (e : Embedding) (t : LongTensor)
  : result (list (list vec)) :=
  if indices_in_range e t then Ok (map (map (table e)) (rows t))
  else Err IndexError.

Record Linear : Type := {
  in_features : nat;
  out_features : nat;
  weight : nat -> vec;
  bias : nat -> Q
}.

Definition Linear_forward (l : Linear) (x : vec) : list Q :=
  map (fun i => (dot (weight l i) x + bias l i)%Q) (seq 0 (out_features l)).

(** [nn.Dropout(p)]: the identity outside training and for [p = 0];
    otherwise each element is zeroed with probability [p] and the others
    are scaled by [1 / (1 - p)]. *)
Definition drop_element (p : Q) (x : Q) : M Q :=
  u <- torch_draw ;;
  ret (if Qlt_bool u p then 0%Q else (x / (1 - p))%Q).

Definition Dropout_forward (p : Q) (training : bool) (t : list (list vec))
  : M (list (list vec)) :=
  if training && Qlt_bool 0 p then mapM (mapM (mapM (drop_element p))) t
  else ret t.

Inductive CellKind : Type := LSTM | GRU | RNN.

(** A recurrent module: [cell x h] is the state of all layers after reading
    input [x] in state [h]; the output at a position is the state of the
    last layer. *)
Record RNNBase : Type := {
  mode : CellKind;
  input_size : nat;
  rnn_hidden_size : nat;
  num_layers : nat;
  dropout : Q;
  cell : vec -> list vec -> list vec
}.

Fixpoint rnn_scan (c : vec -> list vec -> list vec) (xs : list vec)
  (h : list vec) : list vec :=
  match xs with
  | [] => []
  | x :: xs' => let h' := c x h in last h' [] :: rnn_scan c xs' h'
  end.

(** The state of all layers after the last position of a sequence. *)
Fixpoint rnn_final (c : vec -> list vec -> list vec) (xs : list vec)
  (h : list vec) : list vec :=
  match xs with
  | [] => h
  | x :: xs' => rnn_final c xs' (c x h)
  end.

(** The state tensor [hx] has the shape [num_layers, batch, hidden_size]
    that the module expects for an input of [batch] sequences. *)
Definition state_fits (m : RNNBase) (batch : nat) (hx : Hidden) : bool :=
  (length hx =? batch)
  && forallb (fun s => (length s =? num_layers m)
                       && forallb (fun v => length v =? rnn_hidden_size m) s)
       hx.

(** [hx.size(0)], the number of layers of a state tensor, read off its
    first batch element; a tensor with an empty batch dimension has the
    layer count of the module. *)
Definition state_layers (m : RNNBase) (hx : Hidden) : nat :=
  match hx with
  | [] => num_layers m
  | s :: _ => length s
  end.

(** [rnn(input, hx)] with [input] of shape [batch, len, hidden] and [hx] a
    single tensor: the outputs of every position and the final state.
    [nn.GRU] and [nn.RNN] raise on a state that is not of the expected
    shape and on a sequence of length zero.  [nn.LSTM] takes its state as
    a pair [(h_0, c_0)]: it reads [hx[0]] and [hx[1]], which do not both
    exist in a tensor of fewer than two layers, and rejects them as they
    are not tensors of three dimensions. *)
Definition RNNBase_forward (m : RNNBase) (input : list (list vec))
  (hx : Hidden) : result (list (list vec) * Hidden) :=
  match mode m with
  | LSTM =>
      if state_layers m hx <? 2 then Err IndexError else Err RuntimeError
  | _ =>
      if state_fits m (length input) hx
         && negb (existsb (fun xs => length xs =? 0) input)
      then Ok (map (fun p => rnn_scan (cell m) (fst p) (snd p))
                 (combine input hx),
               map (fun p => rnn_final (cell m) (fst p) (snd p))
                 (combine input hx))
      else Err RuntimeError
  end.

(** [rnn(input, hx)[0]] *)
Definition rnn_forward (m : RNNBase) (input : list (list vec)) (hx : Hidden)
  : result (list (list vec)) :=
  result_bind (RNNBase_forward m input hx) (fun r => Ok (fst r)).

(** ** [utils/distance.py] *)

(** A Python [str] is a list of code points. *)
Definition char : Type := N.
Definition str : Type := list char.

Definition space : char := 32%N.

(** [s.replace(' ', '')] *)
Definition remove_spaces (s : str) : str :=
  filter (fun c => negb (N.eqb c space)) s.

Definition min3 (a b c : nat) : nat := Nat.min a (Nat.min b c).

(** [Levenshtein.distance]: the least number of single-character
    insertions, deletions and substitutions, by the recurrence on the two
    strings. *)
Fixpoint Lev_distance (s : str) : str -> nat :=
  fix against (t : str) : nat :=
    match s, t with
    | [], _ => length t
    | _, [] => length s
    | a :: s', b :: t' =>
        if N.eqb a b then Lev_distance s' t'
        else S (min3 (Lev_distance s' t) (against t') (Lev_distance s' t'))
    end.

(** [edits s t n]: [n] single-character insertions, deletions and
    substitutions turn [s] into [t]. *)
Inductive edits : str -> str -> nat -> Prop :=
| edits_nil : edits [] [] 0
| edits_keep a s t n : edits s t n -> edits (a :: s) (a :: t) n
| edits_substitute a b s t n : edits s t n -> edits (a :: s) (b :: t) (S n)
| edits_delete a s t n : edits s t n -> edits (a :: s) t (S n)
| edits_insert b s t n : edits s t n -> edits s (b :: t) (S n).

Definition char_distance (target y_hat : str) : nat * nat :=
  let target := remove_spaces target in
  let y_hat := remove_spaces y_hat in
  let distance := Lev_distance y_hat target in
  let length_ := length (remove_spaces target) in
  (distance, length_).

(** Modelled from the spec: [utils/label.py] is not in the sources.  The
    scorer "strips content at/after EOS": the labels before the first
    [eos_id] are kept, mapped through [id2char] and joined. *)
Fixpoint before_eos (eos_id : nat) (labels : list nat) : list nat :=
  match labels with
  | [] => []
  | l :: labels' => if l =? eos_id then [] else l :: before_eos eos_id labels'
  end.

(** Modelled from the spec: [label_to_string] of [utils/label.py], which is
    not in the sources; the string of the labels before the first
    [eos_id]. *)
Definition label_to_string (labels : list nat) (id2char : nat -> str)
  (eos_id : nat) : str :=
  concat (map id2char (before_eos eos_id labels)).

(** The loop [for i in range(len(targets))] of [get_distance], with its two
    accumulators; [y_hats[i]] raises when [y_hats] is shorter than
    [targets]. *)
Fixpoint get_distance_loop (targets y_hats : list (list nat))
  (id2char : nat -> str) (eos_id : nat) (total_distance total_length : nat)
  : result (nat * nat) :=
  match targets with
  | [] => Ok (total_distance, total_length)
  | t :: targets' =>
      match y_hats with
      | [] => Err IndexError
      | y :: y_hats' =>
          let target := label_to_string t id2char eos_id in
          let y_hat := label_to_string y id2char eos_id in
          let '(distance, length_) := char_distance target y_hat in
          get_distance_loop targets' y_hats' id2char eos_id
            (total_distance + distance) (total_length + length_)
      end
  end.

Definition get_distance (targets y_hats : list (list nat))
  (id2char : nat -> str) (eos_id : nat) : result (nat * nat) :=
  get_distance_loop targets y_hats id2char eos_id 0 0.

(** ** [models/speller.py] *)

(** [s.lower()] on the ASCII letters. *)
Definition lower_ascii (c : ascii) : ascii :=
  let n := nat_of_ascii c in
  if (65 <=? n) && (n <=? 90) then ascii_of_nat (n + 32) else c.

Fixpoint lower (s : string) : string :=
  match s with
  | EmptyString => EmptyString
  | String c s' => String (lower_ascii c) (lower s')
  end.

(** [kind] reads as [name], a word in lower-case letters, when the case of
    its letters is ignored: every character of [kind] is the letter of
    [name] at its place or the capital of that letter, 32 code points
    below it. *)
Fixpoint reads_as (name kind : string) : bool :=
  match name, kind with
  | EmptyString, EmptyString => true
  | String a name', String c kind' =>
      ((nat_of_ascii c =? nat_of_ascii a)
       || (nat_of_ascii c + 32 =? nat_of_ascii a))
      && reads_as name' kind'
  | _, _ => false
  end.

Section Decoder.

(** The exponential of the float arithmetic, used by the softmax of the
    attention module. *)
Variable exp_ : Q -> Q.

(** Modelled from the spec: [models/attention.py] ([Attention]) is not in
    the sources.  Content-based attention: for each decoder position the
    alignment score against every encoder step is their inner product, the
    scores are normalised by a softmax over the encoder steps, and the
    context is the sum of the encoder outputs weighted by them.  An empty
    encoder-time dimension is rejected as an input error, and so is a batch
    size that differs from the decoder output's. *)
Record Attention : Type := {
  decoder_hidden_size : nat
}.

(** Modelled from the spec: the softmax over the encoder-time dimension. *)
Definition softmax (scores : list Q) : list Q :=
  let e := map exp_ scores in
  map (fun x => (x / Qsum e)%Q) e.

(** Modelled from the spec: the context, the weighted sum of the encoder
    outputs. *)
Definition weighted_sum (weights : list Q) (enc : list vec) : vec :=
  fold_right vec_add []
    (map (fun p => vec_scale (fst p) (snd p)) (combine weights enc)).

(** Modelled from the spec: the context of one decoder position, with
    inner products as alignment scores. *)
Definition attend (enc : list vec) (d : vec) : vec :=
  weighted_sum (softmax (map (dot d) enc)) enc.

(** Modelled from the spec: [Attention.forward] of [models/attention.py],
    which is not in the sources; it returns the context and rejects an
    empty encoder-time dimension and a mismatched batch size as input
    errors. *)
Definition Attention_forward (a : Attention)
  (decoder_output : list (list vec)) (encoder_outputs : FloatTensor3)
  : result (list (list vec)) :=
  if dim1 encoder_outputs =? 0 then Err InputError
  else if negb (dim0 encoder_outputs =? length decoder_output)
  then Err InputError
  else Ok (map (fun p => map (attend (snd p)) (fst p))
             (combine decoder_output (slices encoder_outputs))).

(** The weights the torch constructors allocate. *)
Record Weights : Type := {
  embedding_weight : nat -> vec;
  rnn_weight : vec -> list vec -> list vec;
  out_weight : nat -> vec;
  out_bias : nat -> Q
}.

Record Speller : Type := {
  rnn_cell : CellKind;
  rnn : RNNBase;
  output_size : nat;
  max_len : nat;
  use_attention : bool;
  eos_id : nat;
  sos_id : nat;
  hidden_size : nat;
  embedding : Embedding;
  layer_size : nat;
  input_dropout : Q;
  k : nat;
  attention : option Attention;
  out : Linear;
  training : bool
}.

(** [Speller.__init__]; the [device] argument only places tensors and is
    left out.  The constructor of the recurrent module raises on a layer
    count or hidden size of zero and on a dropout probability outside
    [0, 1].  A fresh [nn.Module] is in training mode. *)
Definition __init__ (theta : Weights)
  (vocab_size max_len hidden_size sos_id eos_id layer_size : nat)
  (rnn_cell : string) (dropout_p : Q) (use_attention : bool) (k : nat)
  : result Speller :=
  if negb (String.eqb (lower rnn_cell) "lstm"
           || String.eqb (lower rnn_cell) "gru"
           || String.eqb (lower rnn_cell) "rnn")
  then Err AssertionError
  else if (layer_size =? 0) || (hidden_size =? 0)
          || negb (Qle_bool 0 dropout_p && Qle_bool dropout_p 1)
  then Err ValueError
  else
    let kind :=
      if String.eqb (lower rnn_cell) "lstm" then LSTM
      else if String.eqb (lower rnn_cell) "gru" then GRU
      else RNN in
    Ok {| rnn_cell := kind;
          rnn := {| mode := kind;
                    input_size := hidden_size;
                    rnn_hidden_size := hidden_size;
                    num_layers := layer_size;
                    dropout := dropout_p;
                    cell := rnn_weight theta |};
          output_size := vocab_size;
          max_len := max_len;
          use_attention := use_attention;
          eos_id := eos_id;
          sos_id := sos_id;
          hidden_size := hidden_size;
          embedding := {| num_embeddings := vocab_size;
                          embedding_dim := hidden_size;
                          table := embedding_weight theta |};
          layer_size := layer_size;
          input_dropout := dropout_p;
          k := k;
          attention :=
            if use_attention
            then Some {| decoder_hidden_size := hidden_size |}
            else None;
          out := {| in_features := hidden_size;
                    out_features := vocab_size;
                    weight := out_weight theta;
                    bias := out_bias theta |};
          training := true |}.

(** [Speller._forward_step]: forward one time step. *)
Definition _forward_step (self : Speller) (input : LongTensor)
  (speller_hidden : Hidden) (listener_outputs : FloatTensor3)
  (function : list Q -> list Q) : M (list (list (list Q))) :=
  let batch_size := size0 input in
  let output_size := size1 input in
  embedded <- lift (Embedding_forward (embedding self) input) ;;
  embedded <- Dropout_forward (input_dropout self) (training self) embedded ;;
  speller_output <- lift (rnn_forward (rnn self) embedded speller_hidden) ;;
  context <-
    (if use_attention self
     then match attention self with
          | Some a => lift (Attention_forward a speller_output listener_outputs)
          | None => raise AttributeError
          end
     else ret speller_output) ;;
  lift (view3 batch_size output_size
          (map function (map (Linear_forward (out self)) (concat context)))).

(** Modelled from the spec: the step decoder as the beam search calls it.
    [models/beam.py] is not in the sources; by the spec a step returns the
    distribution and the updated hidden state, so this is the computation
    of [_forward_step] together with the final state of the recurrent
    module. *)
Definition StepDecoder_forward (self : Speller) (input : LongTensor)
  (hidden : Hidden) (encoder_outputs : FloatTensor3)
  (function : list Q -> list Q) : M (list (list (list Q)) * Hidden) :=
  embedded <- lift (Embedding_forward (embedding self) input) ;;
  embedded <- Dropout_forward (input_dropout self) (training self) embedded ;;
  r <- lift (RNNBase_forward (rnn self) embedded hidden) ;;
  context <-
    (if use_attention self
     then match attention self with
          | Some a => lift (Attention_forward a (fst r) encoder_outputs)
          | None => raise AttributeError
          end
     else ret (fst r)) ;;
  distribution <-
    lift (view3 (size0 input) (size1 input)
            (map function (map (Linear_forward (out self)) (concat context)))) ;;
  ret (distribution, snd r).

(** Modelled from the spec: [models/beam.py] ([Beam]) is not in the
    sources.  The k-best search of the spec, which keeps one beam per batch
    element: the beam starts as [k] copies seeded with the initial token;
    each step batches the active hypotheses into one call of the step
    decoder, takes the top [k] next tokens of each, scores an extension by
    the parent's cumulative score plus the token's log-probability and
    keeps the [k] best of all candidates, equal scores in hypothesis order;
    a surviving candidate carries the hidden state its parent has after
    the step.  A
    hypothesis is terminated the step it emits EOS: it keeps its score, is
    not expanded and still takes part in the ranking.  The search of a
    batch element stops when all its hypotheses are terminated or after
    [max_len] steps, and returns the tokens of the best hypothesis without
    the leading initial token. *)
Record BeamHypothesis : Type := {
  token_sequence : list nat;
  cumulative_log_score : Q;
  hidden_state : list vec;
  is_terminated : bool
}.

(** Modelled from the spec: the arguments [forward] passes to the
    constructor of [Beam]. *)
Record Beam : Type := {
  beam_k : nat;
  decoder_hidden : Hidden;
  decoder : Speller;
  beam_batch_size : nat;
  beam_max_len : Z;
  beam_function : list Q -> list Q
}.

(** Modelled from the spec: a hypothesis extended by a candidate token;
    [updated] is the hidden state of the hypothesis after the step. *)
Definition extend (eos : nat) (h : BeamHypothesis) (updated : list vec)
  (c : Q * nat) : BeamHypothesis :=
  {| token_sequence := token_sequence h ++ [snd c];
     cumulative_log_score := (cumulative_log_score h + fst c)%Q;
     hidden_state := updated;
     is_terminated := snd c =? eos |}.

(** Modelled from the spec: the candidates of a step, in hypothesis order;
    [steps] holds the distribution and the updated hidden state of every
    active hypothesis. *)
Fixpoint extensions (width eos : nat) (beam : list BeamHypothesis)
  (steps : list (list Q * list vec)) : list BeamHypothesis :=
  match beam with
  | [] => []
  | h :: beam' =>
      if is_terminated h then h :: extensions width eos beam' steps
      else
        match steps with
        | [] => extensions width eos beam' []
        | s :: steps' =>
            map (extend eos h (snd s))
              (firstn width (sort_desc (indexed 0 (fst s))))
            ++ extensions width eos beam' steps'
        end
  end.

(** Modelled from the spec: the [width] best candidates, best first. *)
Definition prune (width : nat) (candidates : list BeamHypothesis)
  : list BeamHypothesis :=
  flat_map (fun p => match nth_error candidates (snd p) with
                     | Some h => [h]
                     | None => []
                     end)
    (firstn width
       (sort_desc (indexed 0 (map cumulative_log_score candidates)))).

(** Modelled from the spec: one step of the search for batch element
    [b]. *)
Definition Beam_step (self : Beam) (b : nat) (listener_outputs : FloatTensor3)
  (beam : list BeamHypothesis) : M (list BeamHypothesis) :=
  let active := filter (fun h => negb (is_terminated h)) beam in
  let input :=
    of_rows (length active) 1
      (map (fun h => [last (token_sequence h) 0]) active) in
  let hidden := map hidden_state active in
  let enc := {| dim0 := length active;
                dim1 := dim1 listener_outputs;
                elt := fun _ t => elt listener_outputs b t |} in
  step <-
    StepDecoder_forward (decoder self) input hidden enc (beam_function self) ;;
  ret (prune (beam_k self)
         (extensions (beam_k self) (eos_id (decoder self)) beam
            (combine (squeeze1 (fst step)) (snd step)))).

(** Modelled from the spec: the search loop of batch element [b], which
    ends after [steps] steps or when all hypotheses are terminated. *)
Fixpoint Beam_loop (self : Beam) (b : nat) (listener_outputs : FloatTensor3)
  (steps : nat) (beam : list BeamHypothesis) : M (list BeamHypothesis) :=
  match steps with
  | 0 => ret beam
  | S steps' =>
      if forallb is_terminated beam then ret beam
      else
        beam' <- Beam_step self b listener_outputs beam ;;
        Beam_loop self b listener_outputs steps' beam'
  end.

(** Modelled from the spec: the search of batch element [b]. *)
Definition Beam_search_element (self : Beam) (inputs : LongTensor)
  (listener_outputs : FloatTensor3) (b : nat) : M (list nat) :=
  let seed := {| token_sequence := [item inputs b 0];
                 cumulative_log_score := 0%Q;
                 hidden_state := nth b (decoder_hidden self) [];
                 is_terminated := false |} in
  beam <- Beam_loop self b listener_outputs (Z.to_nat (beam_max_len self))
            (repeat seed (beam_k self)) ;;
  ret (match beam with
       | [] => []
       | best :: _ => tl (token_sequence best)
       end).

(** Modelled from the spec: [Beam.search] of [models/beam.py], which is not
    in the sources. *)
Definition Beam_search (self : Beam) (inputs : LongTensor)
  (listener_outputs : FloatTensor3) : M (list (list nat)) :=
  mapM (Beam_search_element self inputs listener_outputs)
    (seq 0 (beam_batch_size self)).

(** The teacher-forced branch of [Speller.forward]: infer all at once. *)
Definition teacher_forced_decode (self : Speller) (inputs : LongTensor)
  (speller_hidden : Hidden) (listener_outputs : FloatTensor3)
  (function : list Q -> list Q) : M (list (list (list Q))) :=
  let inputs := drop_last_column inputs in
  predicted_softmax <-
    _forward_step self inputs speller_hidden listener_outputs function ;;
  ret (map (fun di => select1 di predicted_softmax)
         (seq 0 (computed_size1 predicted_softmax))).

(** The loop [for di in range(max_len)] of the free-running branch, with
    the loop variables [input] and [decode_results]. *)
Fixpoint free_running_loop (self : Speller) (steps : nat) (input : LongTensor)
  (speller_hidden : Hidden) (listener_outputs : FloatTensor3)
  (function : list Q -> list Q) (decode_results : list (list (list Q)))
  : M (list (list (list Q))) :=
  match steps with
  | 0 => ret decode_results
  | S steps' =>
      predicted_softmax <-
        _forward_step self input speller_hidden listener_outputs function ;;
      let step_output := squeeze1 predicted_softmax in
      let decode_results := decode_results ++ [step_output] in
      input <- lift (topk1_indices (last decode_results [])) ;;
      free_running_loop self steps' input speller_hidden listener_outputs
        function decode_results
  end.

(** The free-running branch of [Speller.forward]. *)
Definition free_running_decode (self : Speller) (inputs : LongTensor)
  (max_len : Z) (speller_hidden : Hidden) (listener_outputs : FloatTensor3)
  (function : list Q -> list Q) : M (list (list (list Q))) :=
  input <- lift (first_column inputs) ;;
  free_running_loop self (Z.to_nat max_len) input speller_hidden
    listener_outputs function [].

(** [Speller.forward]; the second component of the value is [None] for a
    beam search. *)
Definition forward (self : Speller) (inputs : LongTensor)
  (listener_hidden : Hidden) (listener_outputs : FloatTensor3)
  (function : list Q -> list Q) (teacher_forcing_ratio : Q)
  (use_beam_search : bool)
  : M (list (list nat) * option (list (list (list Q)))) :=
  let batch_size := size0 inputs in
  let max_len := (Z.of_nat (size1 inputs) - 1)%Z in
  speller_hidden <-
    uniform_ (-0.1) 0.1 (layer_size self) batch_size (hidden_size self) ;;
  r <- random_random ;;
  let use_teacher_forcing := Qlt_bool r teacher_forcing_ratio in
  if use_beam_search then
    inputs <- lift (first_column inputs) ;;
    let beam := {| beam_k := k self;
                   decoder_hidden := speller_hidden;
                   decoder := self;
                   beam_batch_size := batch_size;
                   beam_max_len := max_len;
                   beam_function := function |} in
    y_hats <- Beam_search beam inputs listener_outputs ;;
    ret (y_hats, None)
  else
    decode_results <-
      (if use_teacher_forcing
       then teacher_forced_decode self inputs speller_hidden listener_outputs
              function
       else free_running_decode self inputs max_len speller_hidden
              listener_outputs function) ;;
    logit <- lift (stack_dim1 decode_results) ;;
    y_hats <- lift (max_last logit) ;;
    ret (y_hats, Some logit).

(** ** Concrete decoders and inputs *)

Definition theta0 : Weights :=
  {| embedding_weight := fun i => [inject_Z (Z.of_nat i); 1%Q];
     rnn_weight := fun x h => [vec_add x (nth 0 h [])];
     out_weight := fun i => [inject_Z (Z.of_nat i); 0%Q];
     out_bias := fun i => if i =? 1 then 1%Q else 0%Q |}.

(** The decoder [Speller(3, maxlen, 2, 0, eos, 1, kind, 0, att, k=1)] over
    the weights [theta0], as [__init__] builds it for a valid kind. *)
Definition example_decoder (kind : CellKind) (maxlen eos : nat) (att : bool)
  : Speller :=
  {| rnn_cell := kind;
     rnn := {| mode := kind;
               input_size := 2;
               rnn_hidden_size := 2;
               num_layers := 1;
               dropout := 0%Q;
               cell := rnn_weight theta0 |};
     output_size := 3;
     max_len := maxlen;
     use_attention := att;
     eos_id := eos;
     sos_id := 0;
     hidden_size := 2;
     embedding := {| num_embeddings := 3;
                     embedding_dim := 2;
                     table := embedding_weight theta0 |};
     layer_size := 1;
     input_dropout := 0%Q;
     k := 1;
     attention :=
       if att then Some {| decoder_hidden_size := 2 |} else None;
     out := {| in_features := 2;
               out_features := 3;
               weight := out_weight theta0;
               bias := out_bias theta0 |};
     training := true |}.

(** Weights for a vocabulary of four tokens, the last of which never has
    the greatest score. *)
Definition theta1 : Weights :=
  {| embedding_weight := fun i => [inject_Z (Z.of_nat i); 1%Q];
     rnn_weight := fun x h => [vec_add x (nth 0 h [])];
     out_weight := fun i =>
       if i =? 3 then [0%Q; 0%Q] else [inject_Z (Z.of_nat i); 0%Q];
     out_bias := fun i =>
       if i =? 1 then 1%Q else if i =? 3 then (-1)%Q else 0%Q |}.

(** The decoder [Speller(4, 5, 2, 0, 3, 1, 'gru', 0, False, k=1)] over the
    weights [theta1], as [__init__] builds it. *)
Definition example_decoder4 : Speller :=
  {| rnn_cell := GRU;
     rnn := {| mode := GRU;
               input_size := 2;
               rnn_hidden_size := 2;
               num_layers := 1;
               dropout := 0%Q;
               cell := rnn_weight theta1 |};
     output_size := 4;
     max_len := 5;
     use_attention := false;
     eos_id := 3;
     sos_id := 0;
     hidden_size := 2;
     embedding := {| num_embeddings := 4;
                     embedding_dim := 2;
                     table := embedding_weight theta1 |};
     layer_size := 1;
     input_dropout := 0%Q;
     k := 1;
     attention := None;
     out := {| in_features := 2;
               out_features := 4;
               weight := out_weight theta1;
               bias := out_bias theta1 |};
     training := true |}.

(** One target sequence, as a tensor of shape [1, len]. *)
Definition one_target (tokens : list nat) : LongTensor :=
  {| size0 := 1; size1 := length tokens; item := fun _ j => nth j tokens 0 |}.

(** Listener outputs of shape [1, len, 2]. *)
Definition example_listener_outputs (len : nat) : FloatTensor3 :=
  {| dim0 := 1; dim1 := len;
     elt := fun _ t => [inject_Z (Z.of_nat t); 1%Q] |}.

Definition example_world : World :=
  {| py_random := {| tape := fun _ => (1 # 2)%Q; cursor := 0 |};
     torch_random := {| tape := fun _ => (1 # 2)%Q; cursor := 0 |} |}.

(** Targets of three tokens, of five tokens and of one token. *)
Definition targets3 : LongTensor := one_target [0; 2; 1].
Definition targets5 : LongTensor := one_target [0; 2; 1; 1; 1].
Definition targets1 : LongTensor := one_target [0].

(** The [function] argument of the examples leaves the scores as they are. *)
Definition raw_scores (l : list Q) : list Q := l.

(** A rational stand-in for the exponential in the examples. *)
Definition example_exp (x : Q) : Q := (1 + x * x)%Q.

(** ** Vocabulary of the statements *)

Definition shape {A} (n len : nat) (t : list (list A)) : Prop :=
  length t = n /\ Forall (fun r => length r = len) t.

(** A computation that always returns and leaves Python's generator alone. *)
Definition quiet {A} (c : M A) (P : A -> Prop) : Prop :=
  forall w, exists a w',
    c w = (Ok a, w') /\ py_random w' = py_random w /\ P a.

(** The context a step projects, from the output of the recurrent module. *)
Definition step_context (self : Speller) (speller_output : list (list vec))
  (listener_outputs : FloatTensor3) : result (list (list vec)) :=
  if use_attention self
  then match attention self with
       | Some a => Attention_forward a speller_output listener_outputs
       | None => Err AttributeError
       end
  else Ok speller_output.

(** The attention module, when it is used, exists and accepts the listener
    outputs for a batch of the given size. *)
Definition attention_ready (self : Speller) (listener_outputs : FloatTensor3)
  (batch : nat) : bool :=
  if use_attention self
  then match attention self with
       | Some _ =>
           negb (dim1 listener_outputs =? 0)
           && (dim0 listener_outputs =? batch)
       | None => false
       end
  else true.

(** A step accepts its arguments: the tokens are rows of the embedding,
    the recurrent module is not an LSTM and is handed a state of the shape
    it expects, the attention module is ready, and the input has no empty
    dimension. *)
Definition step_accepts (self : Speller) (input : LongTensor)
  (hidden : Hidden) (listener_outputs : FloatTensor3) : Prop :=
  indices_in_range (embedding self) input = true /\
  mode (rnn self) <> LSTM /\
  state_fits (rnn self) (size0 input) hidden = true /\
  attention_ready self listener_outputs (size0 input) = true /\
  0 < size0 input /\ 0 < size1 input.

(** The recurrent module has the layer count and the hidden size with which
    [forward] draws the state tensor, as [__init__] sets them. *)
Definition state_attributes_agree (self : Speller) : Prop :=
  num_layers (rnn self) = layer_size self /\
  rnn_hidden_size (rnn self) = hidden_size self.

(** The decoder scores no more tokens than its embedding has rows, so that
    a predicted token can be fed back. *)
Definition predictions_in_range (self : Speller) (function : list Q -> list Q)
  : Prop :=
  forall x,
    length (function (Linear_forward (out self) x))
    <= num_embeddings (embedding self).


(** The decoder scores a vocabulary that is not empty. *)
Definition scores_vocabulary (self : Speller) (function : list Q -> list Q)
  : Prop :=
  forall x, function (Linear_forward (out self) x) <> [].

(** The state tensor a call of [forward] draws in world [w], and the world
    after that draw and the draw of [random.random()]. *)
Definition drawn_hidden (self : Speller) (inputs : LongTensor) (w : World)
  : Hidden :=
  match uniform_ (-0.1) 0.1 (layer_size self) (size0 inputs)
          (hidden_size self) w with
  | (Ok h, _) => h
  | (Err _, _) => []
  end.

Definition world_after_draws (self : Speller) (inputs : LongTensor)
  (w : World) : World :=
  {| py_random := advance 1 (py_random w);
     torch_random :=
       advance (layer_size self * size0 inputs * hidden_size self)
         (torch_random w) |}.

(** The value [random.random()] returns in world [w]. *)
Definition coin (w : World) : Q := tape (py_random w) (cursor (py_random w)).

(** The two non-beam branches of [forward], and what [forward] does with
    the list [decode_results] they build. *)
Definition decode_branch (self : Speller) (inputs : LongTensor)
  (speller_hidden : Hidden) (listener_outputs : FloatTensor3)
  (function : list Q -> list Q) (use_teacher_forcing : bool)
  : M (list (list (list Q))) :=
  if use_teacher_forcing
  then teacher_forced_decode self inputs speller_hidden listener_outputs
         function
  else free_running_decode self inputs (Z.of_nat (size1 inputs) - 1)
         speller_hidden listener_outputs function.

Definition finish (decode_results : list (list (list Q)))
  : result (list (list nat) * option (list (list (list Q)))) :=
  result_bind (stack_dim1 decode_results) (fun logit =>
  result_bind (max_last logit) (fun y_hats => Ok (y_hats, Some logit))).

(** The tensor of shape [batch, 1] that holds one token per batch element. *)
Definition column (tokens : list nat) : LongTensor :=
  of_rows (length tokens) 1 (map (fun i => [i]) tokens).

(** Greedy autoregression: [greedy_chain self hidden enc f input w outs w']
    holds when [outs] are the outputs of successive steps of the decoder,
    the first on [input] and each later one on the argmax of the output
    before it, that take world [w] to [w']. *)
Inductive greedy_chain (self : Speller) (hidden : Hidden) (enc : FloatTensor3)
  (f : list Q -> list Q)
  : LongTensor -> World -> list (list (list Q)) -> World -> Prop :=
| greedy_done input w : greedy_chain self hidden enc f input w [] w
| greedy_next input w ps w1 prediction rest w2 :
    _forward_step self input hidden enc f w = (Ok ps, w1) ->
    result_map max_index (squeeze1 ps) = Ok prediction ->
    greedy_chain self hidden enc f (column prediction) w1 rest w2 ->
    greedy_chain self hidden enc f input w (squeeze1 ps :: rest) w2.

(** The decoder with its [attention] attribute replaced. *)
Definition with_attention (a : option Attention) (self : Speller) : Speller :=
  {| rnn_cell := rnn_cell self;
     rnn := rnn self;
     output_size := output_size self;
     max_len := max_len self;
     use_attention := use_attention self;
     eos_id := eos_id self;
     sos_id := sos_id self;
     hidden_size := hidden_size self;
     embedding := embedding self;
     layer_size := layer_size self;
     input_dropout := input_dropout self;
     k := k self;
     attention := a;
     out := out self;
     training := training self |}.

(** The decoder with its [max_len] and [eos_id] attributes replaced. *)
Definition with_limits (maxlen eos : nat) (self : Speller) : Speller :=
  {| rnn_cell := rnn_cell self;
     rnn := rnn self;
     output_size := output_size self;
     max_len := maxlen;
     use_attention := use_attention self;
     eos_id := eos;
     sos_id := sos_id self;
     hidden_size := hidden_size self;
     embedding := embedding self;
     layer_size := layer_size self;
     input_dropout := input_dropout self;
     k := k self;
     attention := attention self;
     out := out self;
     training := training self |}.

(** [i] is the first index of a maximal entry of [d]. *)
Definition first_max (d : list Q) (i : nat) : Prop :=
  exists v,
    nth_error d i = Some v /\
    Forall (fun x => (x <= v)%Q) d /\
    Forall (fun x => (x < v)%Q) (firstn i d).

(** Dropout is the identity: the decoder is not training or was built with
    [dropout_p = 0]. *)
Definition dropout_inactive (self : Speller) : Prop :=
  training self && Qlt_bool 0 (input_dropout self) = false.

(** The encoder outputs of batch element [b]. *)
Definition encoder_row (enc : FloatTensor3) (b : nat) : list vec :=
  map (elt enc b) (seq 0 (dim1 enc)).

(** The distribution a step computes for one batch element that reads token
    [tok] in state [h], when dropout is inactive. *)
Definition row_dist (self : Speller) (f : list Q -> list Q) (h : list vec)
  (enc_b : list vec) (tok : nat) : list Q :=
  let o := last (cell (rnn self) (table (embedding self) tok) h) [] in
  let c := if use_attention self then attend enc_b o else o in
  f (Linear_forward (out self) c).



(** The distributions a step computes for one batch element that reads the
    tokens [toks] from state [h], when dropout is inactive. *)
Definition row_step (self : Speller) (f : list Q -> list Q) (h : list vec)
  (enc_b : list vec) (toks : list nat) : list (list Q) :=
  map (fun o =>
         f (Linear_forward (out self)
              (if use_attention self then attend enc_b o else o)))
    (rnn_scan (cell (rnn self)) (map (table (embedding self)) toks) h).

(** Batch element [b] of a tensor, as a batch of one. *)
Definition row_tensor (t : LongTensor) (b : nat) : LongTensor :=
  {| size0 := 1; size1 := size1 t; item := fun _ j => item t b j |}.

Definition encoder_slice (enc : FloatTensor3) (b : nat) : FloatTensor3 :=
  {| dim0 := 1; dim1 := dim1 enc; elt := fun _ t => elt enc b t |}.

(** Two targets of three tokens, and a target that differs from [targets3]
    in its last token only. *)
Definition two_targets : LongTensor :=
  {| size0 := 2; size1 := 3;
     item := fun i j => nth j (nth i [[0; 2; 1]; [0; 1; 2]] []) 0 |}.

Definition targets3_other_end : LongTensor := one_target [0; 2; 2].

(** ** Lists, results and the monad *)

Lemma rows_shape (t : LongTensor) : shape (size0 t) (size1 t) (rows t).
Proof.
  unfold shape, rows. split.
  - now rewrite length_map, length_seq.
  - apply Forall_forall. intros r Hr. apply in_map_iff in Hr.
    destruct Hr as [i [<- _]]. now rewrite length_map, length_seq.
Qed.

Lemma shape_map {A B} (g : A -> B) n len (t : list (list A)) :
  shape n len t -> shape n len (map (map g) t).
Proof.
  intros [Hn Hr]. split.
  - now rewrite length_map.
  - apply Forall_forall. intros r Hin. apply in_map_iff in Hin.
    destruct Hin as [r0 [<- Hin0]]. rewrite length_map.
    rewrite Forall_forall in Hr. now apply Hr.
Qed.

Lemma shape_Forall2 {A B} n len (t : list (list A)) (t' : list (list B)) :
  Forall2 (fun r r' => length r = length r') t t' ->
  shape n len t -> shape n len t'.
Proof.
  intros HF [Hn Hr]. split.
  - rewrite <- Hn. symmetry. eapply Forall2_length; eauto.
  - clear Hn. induction HF; constructor.
    + inversion Hr; subst. congruence.
    + inversion Hr; subst. auto.
Qed.

Lemma rnn_scan_length c xs h : length (rnn_scan c xs h) = length xs.
Proof.
  revert h. induction xs as [|x xs IH]; intros h; simpl; auto.
Qed.

Lemma chunk_concat {A} (len : nat) (t : list (list A)) :
  Forall (fun r => length r = len) t ->
  chunk (length t) len (concat t) = t.
Proof.
  induction 1 as [|r t Hr Ht IH]; simpl; auto.
  f_equal.
  - rewrite <- Hr, firstn_app, Nat.sub_diag, firstn_all. simpl.
    apply app_nil_r.
  - replace (skipn len (r ++ concat t)) with (concat t); auto.
    rewrite <- Hr, skipn_app, Nat.sub_diag, skipn_all. reflexivity.
Qed.

Lemma concat_map_map {A B} (g : A -> B) (t : list (list A)) :
  map g (concat t) = concat (map (map g) t).
Proof.
  induction t as [|r t IH]; simpl; auto. now rewrite map_app, IH.
Qed.

Lemma view3_project {A} (g : A -> list Q) n len (t : list (list A)) :
  shape n len t ->
  view3 n len (map g (concat t)) =
  if n * len =? 0 then Err RuntimeError else Ok (map (map g) t).
Proof.
  intros Hs. unfold view3. destruct (n * len =? 0); auto.
  rewrite concat_map_map. destruct (shape_map g _ _ _ Hs) as [Hn Hr].
  rewrite <- Hn. now rewrite (chunk_concat len).
Qed.

Lemma result_map_Forall2 {A B} (f : A -> result B) (l : list A) (l' : list B) :
  result_map f l = Ok l' <-> Forall2 (fun x y => f x = Ok y) l l'.
Proof.
  revert l'. induction l as [|x l IH]; intros l'; simpl.
  - split.
    + intros H. inversion H. constructor.
    + intros H. inversion H. reflexivity.
  - split.
    + destruct (f x) as [y|e] eqn:Hx; simpl; try discriminate.
      destruct (result_map f l) as [ys|e] eqn:Hl; simpl; try discriminate.
      intros H. inversion H; subst. constructor; auto. now apply IH.
    + intros H. inversion H as [|x0 y l0 ys Hx Hl]; subst.
      rewrite Hx. simpl. apply IH in Hl. rewrite Hl. reflexivity.
Qed.

Lemma result_map_total {A B} (f : A -> result B) (l : list A) :
  Forall (fun x => exists y, f x = Ok y) l -> exists l', result_map f l = Ok l'.
Proof.
  induction 1 as [|x l [y Hx] Hl [ys IH]]; simpl.
  - eexists; reflexivity.
  - rewrite Hx, IH. simpl. eexists; reflexivity.
Qed.

Lemma mapM_quiet {A B} (f : A -> M B) (R : A -> B -> Prop) (l : list A) :
  (forall x, quiet (f x) (R x)) -> quiet (mapM f l) (Forall2 R l).
Proof.
  intros Hf. induction l as [|x l IH]; intros w; simpl.
  - exists [], w. repeat split; constructor.
  - destruct (Hf x w) as [y [w1 [Hy [Hp1 Hr]]]].
    destruct (IH w1) as [ys [w2 [Hys [Hp2 Hrs]]]].
    exists (y :: ys), w2. unfold bind. rewrite Hy, Hys. unfold ret.
    repeat split; try congruence. now constructor.
Qed.

Lemma drop_element_quiet p x : quiet (drop_element p x) (fun _ => True).
Proof.
  intros w. unfold drop_element, bind, torch_draw, ret. simpl.
  eexists _, _. repeat split.
Qed.

Lemma Dropout_forward_quiet p training t :
  quiet (Dropout_forward p training t)
    (Forall2 (fun r r' => length r = length r') t).
Proof.
  unfold Dropout_forward. destruct (training && Qlt_bool 0 p).
  - intros w.
    destruct (mapM_quiet (mapM (mapM (drop_element p)))
                (fun r r' => length r = length r') t) with (w := w)
      as [t' [w' H]]; [|exists t', w'; exact H].
    intros r w0.
    destruct (mapM_quiet (mapM (drop_element p))
                (fun v v' => True) r) with (w := w0)
      as [r' [w1 [H1 [H2 H3]]]].
    + intros v w1.
      destruct (mapM_quiet (drop_element p) (fun _ _ => True) v)
        with (w := w1) as [v' [w2 [H1 [H2 H3]]]].
      * intros x. apply drop_element_quiet.
      * exists v', w2. auto.
    + exists r', w1. repeat split; auto. eapply Forall2_length; eauto.
  - intros w. exists t, w. unfold ret. repeat split.
    clear. induction t; constructor; auto.
Qed.

(** ** One decoding step *)

Lemma Embedding_forward_ok e t :
  indices_in_range e t = true ->
  Embedding_forward e t = Ok (map (map (table e)) (rows t)).
Proof. intros H. unfold Embedding_forward. now rewrite H. Qed.

Lemma Embedding_forward_inv e t looked_up :
  Embedding_forward e t = Ok looked_up ->
  indices_in_range e t = true /\
  looked_up = map (map (table e)) (rows t).
Proof.
  unfold Embedding_forward. destruct (indices_in_range e t); try discriminate.
  intros H. inversion H. auto.
Qed.

Lemma Embedding_forward_shape e t looked_up :
  Embedding_forward e t = Ok looked_up ->
  shape (size0 t) (size1 t) looked_up.
Proof.
  intros H. apply Embedding_forward_inv in H. destruct H as [_ ->].
  apply shape_map, rows_shape.
Qed.

Lemma no_empty_sequence {A} n len (t : list (list A)) :
  shape n len t -> 0 < len -> existsb (fun xs => length xs =? 0) t = false.
Proof.
  intros [_ Hr] Hlen. induction Hr as [|r t Hl Hr IH]; simpl; auto.
  rewrite IH, orb_false_r. apply Nat.eqb_neq. lia.
Qed.

Lemma state_fits_length m n hx : state_fits m n hx = true -> length hx = n.
Proof.
  unfold state_fits. intros H. apply andb_true_iff in H.
  destruct H as [H _]. now apply Nat.eqb_eq.
Qed.

(** What the recurrent module has checked and computed when it returns. *)
Lemma RNNBase_forward_inv m input hx r :
  RNNBase_forward m input hx = Ok r ->
  mode m <> LSTM /\
  state_fits m (length input) hx = true /\
  existsb (fun xs => length xs =? 0) input = false /\
  r = (map (fun p => rnn_scan (cell m) (fst p) (snd p)) (combine input hx),
       map (fun p => rnn_final (cell m) (fst p) (snd p)) (combine input hx)).
Proof.
  unfold RNNBase_forward. intros H.
  assert (Hm : mode m <> LSTM).
  { intros E. rewrite E in H. destruct (_ <? 2); discriminate. }
  split; [exact Hm|]. revert H.
  destruct (state_fits m (length input) hx);
    destruct (existsb (fun xs => length xs =? 0) input);
    destruct (mode m); simpl; intros H; try congruence;
    inversion H; auto.
Qed.

Lemma RNNBase_forward_total m input hx :
  mode m <> LSTM ->
  state_fits m (length input) hx = true ->
  existsb (fun xs => length xs =? 0) input = false ->
  RNNBase_forward m input hx =
  Ok (map (fun p => rnn_scan (cell m) (fst p) (snd p)) (combine input hx),
      map (fun p => rnn_final (cell m) (fst p) (snd p)) (combine input hx)).
Proof.
  intros Hm Hs He. unfold RNNBase_forward. rewrite Hs, He.
  destruct (mode m) eqn:E; try congruence; reflexivity.
Qed.

Lemma rnn_forward_inv m input hx so :
  rnn_forward m input hx = Ok so ->
  mode m <> LSTM /\
  state_fits m (length input) hx = true /\
  existsb (fun xs => length xs =? 0) input = false /\
  so = map (fun p => rnn_scan (cell m) (fst p) (snd p)) (combine input hx).
Proof.
  unfold rnn_forward. intros H.
  destruct (RNNBase_forward m input hx) as [r|e] eqn:E; try discriminate.
  apply RNNBase_forward_inv in E. destruct E as [Hm [Hs [He ->]]].
  inversion H. auto.
Qed.

Lemma rnn_forward_total m input hx :
  mode m <> LSTM ->
  state_fits m (length input) hx = true ->
  existsb (fun xs => length xs =? 0) input = false ->
  rnn_forward m input hx =
  Ok (map (fun p => rnn_scan (cell m) (fst p) (snd p)) (combine input hx)).
Proof.
  intros Hm Hs He. unfold rnn_forward.
  now rewrite RNNBase_forward_total.
Qed.

(** The errors of the recurrent module. *)
Lemma rnn_forward_errors m input hx e :
  rnn_forward m input hx = Err e ->
  e = RuntimeError \/ (e = IndexError /\ mode m = LSTM).
Proof.
  unfold rnn_forward, RNNBase_forward.
  destruct (mode m); [destruct (_ <? 2)| |];
    try (destruct (_ && _)); simpl; intros H; inversion H; auto.
Qed.

Lemma rnn_forward_shape m input hx so n len :
  rnn_forward m input hx = Ok so -> shape n len input -> shape n len so.
Proof.
  intros H [Hn Hr]. apply rnn_forward_inv in H.
  destruct H as [_ [Hs [_ ->]]]. apply state_fits_length in Hs.
  split.
  - now rewrite length_map, length_combine, Hs, Nat.min_id.
  - apply Forall_forall. intros r Hin. apply in_map_iff in Hin.
    destruct Hin as [[xs h] [<- Hin]]. simpl. rewrite rnn_scan_length.
    apply in_combine_l in Hin. rewrite Forall_forall in Hr. auto.
Qed.

Lemma slices_length enc : length (slices enc) = dim0 enc.
Proof. unfold slices. now rewrite length_map, length_seq. Qed.

Lemma Attention_forward_shape a so enc ctx n len :
  Attention_forward a so enc = Ok ctx -> shape n len so -> shape n len ctx.
Proof.
  unfold Attention_forward. intros H [Hn Hr].
  destruct (dim1 enc =? 0); try discriminate.
  destruct (dim0 enc =? length so) eqn:E; simpl in H; try discriminate.
  apply Nat.eqb_eq in E. inversion H; subst; clear H. split.
  - now rewrite length_map, length_combine, slices_length, E, Nat.min_id.
  - apply Forall_forall. intros r Hin. apply in_map_iff in Hin.
    destruct Hin as [[xs e] [<- Hin]]. simpl. rewrite length_map.
    apply in_combine_l in Hin. rewrite Forall_forall in Hr. auto.
Qed.

Lemma step_context_shape self so enc ctx n len :
  step_context self so enc = Ok ctx -> shape n len so -> shape n len ctx.
Proof.
  unfold step_context. destruct (use_attention self).
  - destruct (attention self); try discriminate.
    apply Attention_forward_shape.
  - intros H. now inversion H.
Qed.

Lemma step_context_total self so enc :
  attention_ready self enc (length so) = true ->
  exists ctx, step_context self so enc = Ok ctx.
Proof.
  unfold attention_ready, step_context, Attention_forward.
  destruct (use_attention self); [|eexists; reflexivity].
  destruct (attention self); try discriminate.
  intros H. apply andb_true_iff in H. destruct H as [H1 H2].
  apply negb_true_iff in H1. rewrite H1, H2. simpl. eexists; reflexivity.
Qed.

Lemma step_context_ready self so enc ctx :
  step_context self so enc = Ok ctx ->
  attention_ready self enc (length so) = true.
Proof.
  unfold step_context, Attention_forward, attention_ready.
  destruct (use_attention self); auto.
  destruct (attention self); try discriminate.
  destruct (dim1 enc =? 0); try discriminate.
  destruct (dim0 enc =? length so); try discriminate. reflexivity.
Qed.

(** A step is the lookup of its tokens, then its dropout draw, then a
    computation without effects. *)
Lemma _forward_step_unfold self input hidden enc f w :
  match Embedding_forward (embedding self) input with
  | Err e => _forward_step self input hidden enc f w = (Err e, w)
  | Ok looked_up =>
      exists embedded w',
        Dropout_forward (input_dropout self) (training self) looked_up w =
        (Ok embedded, w') /\
        py_random w' = py_random w /\
        shape (size0 input) (size1 input) embedded /\
        _forward_step self input hidden enc f w =
        (result_bind (rnn_forward (rnn self) embedded hidden) (fun so =>
         result_bind (step_context self so enc) (fun ctx =>
         view3 (size0 input) (size1 input)
           (map f (map (Linear_forward (out self)) (concat ctx))))), w')
  end.
Proof.
  destruct (Embedding_forward (embedding self) input) as [looked_up|e] eqn:He.
  - destruct (Dropout_forward_quiet (input_dropout self) (training self)
                looked_up w) as [embedded [w' [Hd [Hp HF]]]].
    exists embedded, w'. repeat split; auto.
    + eapply shape_Forall2; eauto.
      now apply (Embedding_forward_shape (embedding self)).
    + eapply shape_Forall2; eauto.
      now apply (Embedding_forward_shape (embedding self)).
    + unfold _forward_step, bind. rewrite He. unfold lift at 1.
      rewrite Hd. unfold lift, step_context.
      destruct (rnn_forward (rnn self) embedded hidden) as [so|e]; simpl; auto.
      destruct (use_attention self); simpl; auto.
      destruct (attention self) as [a|]; simpl; auto.
      destruct (Attention_forward a so enc); simpl; auto.
  - unfold _forward_step, bind. rewrite He. reflexivity.
Qed.

Lemma _forward_step_py self input hidden enc f w :
  py_random (snd (_forward_step self input hidden enc f w)) = py_random w.
Proof.
  pose proof (_forward_step_unfold self input hidden enc f w) as H.
  destruct (Embedding_forward (embedding self) input) as [looked_up|e].
  - destruct H as [embedded [w' [_ [Hp [_ H]]]]]. now rewrite H.
  - now rewrite H.
Qed.

(** What a step that returns has checked and computed. *)
Lemma _forward_step_inv self input hidden enc f w ps w' :
  _forward_step self input hidden enc f w = (Ok ps, w') ->
  exists embedded so ctx,
    Dropout_forward (input_dropout self) (training self)
      (map (map (table (embedding self))) (rows input)) w =
    (Ok embedded, w') /\
    shape (size0 input) (size1 input) embedded /\
    rnn_forward (rnn self) embedded hidden = Ok so /\
    step_context self so enc = Ok ctx /\
    shape (size0 input) (size1 input) ctx /\
    ps = map (map (fun x => f (Linear_forward (out self) x))) ctx /\
    step_accepts self input hidden enc.
Proof.
  intros Hps.
  pose proof (_forward_step_unfold self input hidden enc f w) as H.
  destruct (Embedding_forward (embedding self) input) as [looked_up|e] eqn:He;
    [|rewrite H in Hps; discriminate].
  destruct H as [embedded [w1 [Hd [_ [Hs H]]]]].
  rewrite H in Hps. clear H. inversion Hps as [[H1 H2]]. subst w1.
  apply Embedding_forward_inv in He. destruct He as [Hin ->].
  destruct (rnn_forward (rnn self) embedded hidden) as [so|e] eqn:Hr;
    simpl in H1; try discriminate.
  destruct (step_context self so enc) as [ctx|e] eqn:Hc;
    simpl in H1; try discriminate.
  pose proof (rnn_forward_shape _ _ _ _ _ _ Hr Hs) as Hso.
  pose proof (step_context_shape _ _ _ _ _ _ Hc Hso) as Hctx.
  rewrite map_map in H1.
  rewrite (view3_project _ _ _ _ Hctx) in H1.
  destruct (size0 input * size1 input =? 0) eqn:E; try discriminate.
  apply Nat.eqb_neq in E. inversion H1; subst ps.
  exists embedded, so, ctx. repeat split; auto; try apply Hs; try apply Hctx;
    try lia.
  - apply rnn_forward_inv in Hr. tauto.
  - apply rnn_forward_inv in Hr. destruct Hr as [_ [Hr _]].
    destruct Hs as [Hs _]. now rewrite Hs in Hr.
  - apply step_context_ready in Hc. destruct Hso as [Hso _].
    now rewrite Hso in Hc.
Qed.

Lemma _forward_step_shape self input hidden enc f w out w' :
  _forward_step self input hidden enc f w = (Ok out, w') ->
  shape (size0 input) (size1 input) out /\
  0 < size0 input /\ 0 < size1 input.
Proof.
  intros H. apply _forward_step_inv in H.
  destruct H as [embedded [so [ctx [_ [_ [_ [_ [Hctx [-> Ha]]]]]]]]].
  split; [now apply shape_map|]. unfold step_accepts in Ha. tauto.
Qed.

Lemma _forward_step_ok_inv self input hidden enc f w ps w' :
  _forward_step self input hidden enc f w = (Ok ps, w') ->
  step_accepts self input hidden enc.
Proof.
  intros H. apply _forward_step_inv in H.
  destruct H as [embedded [so [ctx H]]]. tauto.
Qed.

Lemma _forward_step_total self input hidden enc f w :
  step_accepts self input hidden enc ->
  exists out w', _forward_step self input hidden enc f w = (Ok out, w').
Proof.
  intros [Hin [Hm [Hh [Ha [H0 H1]]]]].
  pose proof (_forward_step_unfold self input hidden enc f w) as H.
  rewrite (Embedding_forward_ok _ _ Hin) in H.
  destruct H as [embedded [w1 [_ [_ [Hs H]]]]].
  rewrite H. clear H.
  assert (Hr : rnn_forward (rnn self) embedded hidden =
               Ok (map (fun p => rnn_scan (cell (rnn self)) (fst p) (snd p))
                     (combine embedded hidden))).
  { apply rnn_forward_total; auto.
    - destruct Hs as [-> _]. exact Hh.
    - eapply no_empty_sequence; eauto. }
  rewrite Hr. simpl.
  set (so := map _ (combine embedded hidden)) in *.
  pose proof (rnn_forward_shape _ _ _ _ _ _ Hr Hs) as Hso.
  destruct (step_context_total self so enc) as [ctx Hc].
  { destruct Hso as [-> _]. exact Ha. }
  rewrite Hc. simpl.
  pose proof (step_context_shape _ _ _ _ _ _ Hc Hso) as Hctx.
  rewrite map_map, (view3_project _ _ _ _ Hctx).
  destruct (size0 input * size1 input =? 0) eqn:E.
  - apply Nat.eqb_eq in E. nia.
  - eexists _, _. reflexivity.
Qed.

Lemma _forward_step_dists self input hidden enc f w ps w' :
  _forward_step self input hidden enc f w = (Ok ps, w') ->
  Forall (Forall (fun d => exists x, d = f (Linear_forward (out self) x))) ps.
Proof.
  intros H. apply _forward_step_inv in H.
  destruct H as [embedded [so [ctx [_ [_ [_ [_ [_ [-> _]]]]]]]]].
  apply Forall_forall. intros r Hin.
  apply in_map_iff in Hin. destruct Hin as [r0 [<- _]].
  apply Forall_forall. intros d Hd. apply in_map_iff in Hd.
  destruct Hd as [x [<- _]]. now exists x.
Qed.

(** ** Stacking and the argmax *)

Lemma nth_seq_map {A} (l : list A) (d : A) :
  map (fun i => nth i l d) (seq 0 (length l)) = l.
Proof.
  induction l as [|a l IH]; simpl; auto.
  f_equal. rewrite <- seq_shift, map_map. exact IH.
Qed.

Lemma select1_length di (t : list (list (list Q))) :
  length (select1 di t) = length t.
Proof. unfold select1. apply length_map. Qed.

Lemma nth_select1 b di (t : list (list (list Q))) :
  nth b (select1 di t) [] = nth di (nth b t []) [].
Proof.
  unfold select1.
  transitivity (nth b (map (fun r : list (list Q) => nth di r []) t)
                  ((fun r : list (list Q) => nth di r []) [])).
  - f_equal. destruct di; reflexivity.
  - apply (map_nth (fun r : list (list Q) => nth di r [])).
Qed.

Lemma stack_dim1_ok (ts : list (list (list Q))) n :
  ts <> [] -> Forall (fun t => length t = n) ts ->
  stack_dim1 ts = Ok (map (fun b => map (fun t => nth b t []) ts) (seq 0 n)).
Proof.
  intros Hne Hall. destruct ts as [|t0 ts]; [congruence|].
  unfold stack_dim1.
  assert (H0 : length t0 = n) by (inversion Hall; auto).
  replace (forallb _ _) with true; [now rewrite H0|].
  symmetry. apply forallb_forall. intros x Hx.
  rewrite Forall_forall in Hall. rewrite (Hall x Hx), H0.
  apply Nat.eqb_refl.
Qed.

Lemma stack_select n len (t : list (list (list Q))) :
  shape n len t -> 0 < len ->
  stack_dim1 (map (fun di => select1 di t) (seq 0 len)) = Ok t.
Proof.
  intros [Hn Hr] Hlen.
  rewrite (stack_dim1_ok _ n).
  - f_equal. rewrite <- Hn. rewrite <- (nth_seq_map t []) at 2.
    apply map_ext_in. intros b Hb. apply in_seq in Hb.
    rewrite map_map.
    assert (Hrow : length (nth b t []) = len).
    { rewrite Forall_forall in Hr. apply Hr. apply nth_In. lia. }
    rewrite <- (nth_seq_map (nth b t []) []).
    rewrite Hrow. apply map_ext. intros di. apply nth_select1.
  - destruct len; [lia|]. simpl. congruence.
  - apply Forall_forall. intros x Hx. apply in_map_iff in Hx.
    destruct Hx as [di [<- _]]. now rewrite select1_length.
Qed.

Lemma argmax_from_spec l : forall i best,
  snd best < i ->
  let r := argmax_from i best l in
  (fst best <= fst r)%Q /\
  Forall (fun x => (x <= fst r)%Q) l /\
  ((r = best /\ Forall (fun x => (x <= fst best)%Q) l) \/
   (i <= snd r < i + length l /\
    nth_error l (snd r - i) = Some (fst r) /\
    (fst best < fst r)%Q /\
    Forall (fun x => (x < fst r)%Q) (firstn (snd r - i) l))).
Proof.
  induction l as [|x l IH]; intros i best Hi; simpl.
  - repeat split; try apply Qle_refl; auto.
  - unfold Qlt_bool. destruct (Qle_bool x (fst best)) eqn:E; simpl.
    + apply Qle_bool_iff in E.
      destruct (IH (S i) best) as [H1 [H2 H3]]; [lia|].
      split; [exact H1|]. split.
      * constructor; auto. eapply Qle_trans; eauto.
      * destruct H3 as [[-> H3]|[H3 [H4 [H5 H6]]]].
        -- left. split; auto.
        -- right. split; [lia|].
           replace (snd (argmax_from (S i) best l) - i)
             with (S (snd (argmax_from (S i) best l) - S i)) by lia.
           simpl. repeat split; auto. constructor; auto.
           eapply Qle_lt_trans; eauto.
    + assert (Hx : (fst best < x)%Q).
      { apply Qnot_le_lt. intros H. apply Qle_bool_iff in H. congruence. }
      destruct (IH (S i) (x, i)) as [H1 [H2 H3]]; [simpl; lia|].
      simpl in *. split; [eapply Qle_trans; [apply Qlt_le_weak|]; eauto|].
      split; [constructor; auto|]. right.
      destruct H3 as [[-> H3]|[H3 [H4 [H5 H6]]]]; simpl.
      * rewrite Nat.sub_diag. simpl. repeat split; auto; lia.
      * split; [lia|].
        replace (snd (argmax_from (S i) (x, i) l) - i)
          with (S (snd (argmax_from (S i) (x, i) l) - S i)) by lia.
        simpl. repeat split; auto.
        all: try (eapply Qlt_trans; eassumption).
        all: try (constructor; assumption).
Qed.

(** [max_index] returns the first index of a maximal entry. *)
Lemma max_index_spec row i :
  max_index row = Ok i ->
  exists v,
    nth_error row i = Some v /\
    Forall (fun x => (x <= v)%Q) row /\
    Forall (fun x => (x < v)%Q) (firstn i row).
Proof.
  destruct row as [|x l]; simpl; try discriminate.
  intros H. inversion H; subst; clear H.
  destruct (argmax_from_spec l 1 (x, 0)) as [H1 [H2 H3]]; [simpl; lia|].
  simpl in *. exists (fst (argmax_from 1 (x, 0) l)).
  destruct H3 as [[Hb H3]|[H3 [H4 [H5 H6]]]].
  - rewrite Hb. simpl. repeat split; auto. constructor; auto. apply Qle_refl.
  - destruct (snd (argmax_from 1 (x, 0) l)) as [|j] eqn:Ej; [lia|].
    simpl in *. rewrite Nat.sub_0_r in *. repeat split; auto.
Qed.

Lemma max_index_total row : row <> [] -> exists i, max_index row = Ok i.
Proof. destruct row; [congruence|]. intros _. eexists; reflexivity. Qed.

Lemma max_last_total (t : list (list (list Q))) :
  Forall (Forall (fun d => d <> [])) t -> exists y, max_last t = Ok y.
Proof.
  intros H. unfold max_last. apply result_map_total.
  eapply Forall_impl; [|exact H]. intros r Hr. apply result_map_total.
  eapply Forall_impl; [|exact Hr]. intros d. apply max_index_total.
Qed.

(** ** The decode call *)

Lemma forward_non_beam self inputs lh enc f ratio w :
  forward self inputs lh enc f ratio false w =
  match decode_branch self inputs (drawn_hidden self inputs w) enc f
          (Qlt_bool (coin w) ratio) (world_after_draws self inputs w) with
  | (Ok decode_results, w') => (finish decode_results, w')
  | (Err e, w') => (Err e, w')
  end.
Proof.
  unfold forward, decode_branch, drawn_hidden, world_after_draws, coin.
  unfold bind at 1 2. unfold uniform_ at 1, random_random at 1.
  cbv beta iota. cbn [py_random torch_random].
  unfold uniform_. cbv beta iota zeta.
  unfold bind at 1.
  match goal with
  | |- context [if ?b then teacher_forced_decode _ _ ?h _ _
                else free_running_decode _ _ _ _ _ _] =>
      set (branch := if b then teacher_forced_decode self inputs h enc f
                     else free_running_decode self inputs
                            (Z.of_nat (size1 inputs) - 1) h enc f)
  end.
  match goal with |- context [branch ?w0] => destruct (branch w0) as [[dr|e] w'] end;
    auto.
  unfold finish, bind, lift, ret.
  destruct (stack_dim1 dr) as [logit|e]; simpl; auto.
  destruct (max_last logit) as [y|e]; simpl; auto.
Qed.

Lemma drawn_hidden_length self inputs w :
  length (drawn_hidden self inputs w) = size0 inputs.
Proof.
  unfold drawn_hidden, uniform_. now rewrite length_map, length_seq.
Qed.

(** The state [forward] draws has the shape the recurrent module expects. *)
Lemma drawn_hidden_fits self inputs w :
  state_attributes_agree self ->
  state_fits (rnn self) (size0 inputs) (drawn_hidden self inputs w) = true.
Proof.
  intros [Hl Hh]. unfold state_fits. rewrite drawn_hidden_length, Nat.eqb_refl.
  simpl. unfold drawn_hidden, uniform_. cbv zeta.
  apply forallb_forall. intros s Hs. apply in_map_iff in Hs.
  destruct Hs as [b [<- _]].
  rewrite length_map, length_seq, Hl, Nat.eqb_refl. simpl.
  apply forallb_forall. intros v Hv. apply in_map_iff in Hv.
  destruct Hv as [l [<- _]].
  rewrite length_map, length_seq, Hh. apply Nat.eqb_refl.
Qed.

Lemma teacher_forced_decode_py self inputs hidden enc f w :
  py_random (snd (teacher_forced_decode self inputs hidden enc f w)) =
  py_random w.
Proof.
  unfold teacher_forced_decode, bind.
  pose proof (_forward_step_py self (drop_last_column inputs) hidden enc f w)
    as H.
  destruct (_forward_step self (drop_last_column inputs) hidden enc f w)
    as [[ps|e] w']; exact H.
Qed.

Lemma free_running_loop_py self steps : forall input hidden enc f acc w,
  py_random (snd (free_running_loop self steps input hidden enc f acc w)) =
  py_random w.
Proof.
  induction steps as [|steps IH]; intros input hidden enc f acc w; simpl; auto.
  unfold bind at 1.
  pose proof (_forward_step_py self input hidden enc f w) as H.
  destruct (_forward_step self input hidden enc f w) as [[ps|e] w'];
    simpl in H; auto.
  unfold bind, lift.
  destruct (topk1_indices _) as [next|e]; simpl; auto.
  rewrite IH. exact H.
Qed.

Lemma decode_branch_py self inputs hidden enc f teacher w :
  py_random (snd (decode_branch self inputs hidden enc f teacher w)) =
  py_random w.
Proof.
  unfold decode_branch. destruct teacher.
  - apply teacher_forced_decode_py.
  - unfold free_running_decode, bind, lift.
    destruct (first_column inputs) as [input|e]; simpl; auto.
    apply free_running_loop_py.
Qed.

Lemma finish_inv decode_results y_hats logit_opt :
  finish decode_results = Ok (y_hats, logit_opt) ->
  exists logit,
    logit_opt = Some logit /\
    stack_dim1 decode_results = Ok logit /\
    max_last logit = Ok y_hats.
Proof.
  unfold finish. destruct (stack_dim1 decode_results) as [logit|e];
    simpl; try discriminate.
  destruct (max_last logit) as [y|e] eqn:E; simpl; try discriminate.
  intros H. inversion H; subst. now exists logit.
Qed.

Lemma forward_non_beam_inv self inputs lh enc f ratio w y_hats logit_opt w' :
  forward self inputs lh enc f ratio false w = (Ok (y_hats, logit_opt), w') ->
  exists decode_results logit,
    decode_branch self inputs (drawn_hidden self inputs w) enc f
      (Qlt_bool (coin w) ratio) (world_after_draws self inputs w)
    = (Ok decode_results, w') /\
    logit_opt = Some logit /\
    stack_dim1 decode_results = Ok logit /\
    max_last logit = Ok y_hats.
Proof.
  rewrite forward_non_beam.
  destruct (decode_branch _ _ _ _ _ _ _) as [[dr|e] w1]; try discriminate.
  intros H. inversion H as [[H1 H2]]. subst w1.
  destruct (finish_inv _ _ _ H1) as [logit [-> [Hs Hm]]].
  now exists dr, logit.
Qed.

Lemma teacher_forced_total self inputs hidden enc f w :
  step_accepts self (drop_last_column inputs) hidden enc ->
  exists ps w',
    _forward_step self (drop_last_column inputs) hidden enc f w = (Ok ps, w') /\
    shape (size0 inputs) (size1 inputs - 1) ps /\
    teacher_forced_decode self inputs hidden enc f w =
    (Ok (map (fun di => select1 di ps) (seq 0 (size1 inputs - 1))), w') /\
    stack_dim1 (map (fun di => select1 di ps) (seq 0 (size1 inputs - 1))) =
    Ok ps.
Proof.
  intros Hacc.
  destruct (_forward_step_total self (drop_last_column inputs) hidden enc f w
              Hacc) as [ps [w' Hps]].
  destruct (_forward_step_shape _ _ _ _ _ _ _ _ Hps) as [Hs [H0 H1]].
  simpl in Hs, H0, H1. rewrite <- Nat.sub_1_r in Hs.
  assert (Hc : computed_size1 ps = size1 inputs - 1).
  { destruct Hs as [Hn Hr]. destruct ps as [|r ps].
    - simpl in Hn. lia.
    - simpl. now inversion Hr. }
  exists ps, w'. repeat split; try apply Hs; auto.
  - unfold teacher_forced_decode, bind. rewrite Hps. unfold ret.
    now rewrite Hc.
  - eapply stack_select; eauto. lia.
Qed.

(** *** The first maximum, by sorting and by scanning *)

Lemma sort_desc_head (l : list Q) : forall i0,
  l <> [] ->
  exists v j rest,
    sort_desc (indexed i0 l) = (v, i0 + j) :: rest /\
    nth_error l j = Some v /\
    Forall (fun x => (x <= v)%Q) l /\
    Forall (fun x => (x < v)%Q) (firstn j l).
Proof.
  induction l as [|x l IH]; intros i0 Hne; [congruence|].
  destruct l as [|y l].
  - exists x, 0, []. simpl. rewrite Nat.add_0_r. repeat split; auto.
    constructor; auto. apply Qle_refl.
  - destruct (IH (S i0)) as [v [j [rest [Hs [Hn [Hle Hlt]]]]]]; [congruence|].
    change (sort_desc (indexed i0 (x :: y :: l)))
      with (insert_desc (x, i0) (sort_desc (indexed (S i0) (y :: l)))).
    rewrite Hs. simpl insert_desc.
    destruct (Qle_bool v x) eqn:E.
    + apply Qle_bool_iff in E. exists x, 0. eexists.
      rewrite Nat.add_0_r. repeat split; auto.
      constructor; [apply Qle_refl|].
      eapply Forall_impl; [|exact Hle]. intros a Ha. simpl in Ha.
      eapply Qle_trans; eauto.
    + assert (Hx : (x < v)%Q).
      { apply Qnot_le_lt. intros H. apply Qle_bool_iff in H. congruence. }
      exists v, (S j). eexists.
      replace (i0 + S j) with (S i0 + j) by lia.
      repeat split; auto.
      * constructor; auto. now apply Qlt_le_weak.
      * change (firstn (S j) (x :: y :: l)) with (x :: firstn j (y :: l)).
        constructor; auto.
Qed.

Lemma first_max_unique (l : list Q) i j v u :
  nth_error l i = Some v -> Forall (fun x => (x <= v)%Q) l ->
  Forall (fun x => (x < v)%Q) (firstn i l) ->
  nth_error l j = Some u -> Forall (fun x => (x <= u)%Q) l ->
  Forall (fun x => (x < u)%Q) (firstn j l) ->
  i = j.
Proof.
  intros Hi Hle Hlt Hj Hle' Hlt'.
  rewrite Forall_forall in *.
  destruct (Nat.lt_trichotomy i j) as [H|[H|H]]; auto; exfalso.
  - assert (Hin : In v (firstn j l)).
    { eapply nth_error_In with (n := i). rewrite nth_error_firstn.
      apply Nat.ltb_lt in H. now rewrite H. }
    apply Hlt' in Hin. apply nth_error_In in Hj. apply Hle in Hj.
    apply (Qlt_not_le _ _ Hin Hj).
  - assert (Hin : In u (firstn i l)).
    { eapply nth_error_In with (n := j). rewrite nth_error_firstn.
      apply Nat.ltb_lt in H. now rewrite H. }
    apply Hlt in Hin. apply nth_error_In in Hi. apply Hle' in Hi.
    apply (Qlt_not_le _ _ Hin Hi).
Qed.

(** The index [topk(1)] selects is the index [max] selects. *)
Lemma topk1_max_index row r :
  topk 1 row = Ok r ->
  exists v i, r = [(v, i)] /\ max_index row = Ok i.
Proof.
  unfold topk. destruct (length row <? 1) eqn:E; try discriminate.
  apply Nat.ltb_ge in E. intros H. inversion H; subst; clear H.
  assert (Hne : row <> []) by (destruct row; simpl in *; [lia|congruence]).
  destruct (sort_desc_head row 0 Hne) as [v [j [rest [Hs [Hn [Hle Hlt]]]]]].
  destruct (max_index_total row Hne) as [i Hi].
  destruct (max_index_spec row i Hi) as [u [Hn' [Hle' Hlt']]].
  rewrite Hs. simpl. exists v, j. split; auto.
  rewrite Hi. f_equal. eapply first_max_unique; eauto.
Qed.

Lemma topk1_total row : row <> [] -> exists r, topk 1 row = Ok r.
Proof.
  intros H. unfold topk. destruct row; [congruence|]. simpl.
  eexists; reflexivity.
Qed.

Lemma topk1_indices_column (t : list (list Q)) next :
  topk1_indices t = Ok next ->
  exists prediction,
    result_map max_index t = Ok prediction /\ next = column prediction.
Proof.
  unfold topk1_indices.
  destruct (result_map (topk 1) t) as [r|e] eqn:E; simpl; try discriminate.
  intros H. inversion H; subst; clear H.
  apply result_map_Forall2 in E.
  assert (exists prediction,
            Forall2 (fun x y => max_index x = Ok y) t prediction /\
            map (map snd) r = map (fun i => [i]) prediction)
    as [prediction [H1 H2]].
  { induction E as [|x y t r Hx E IH].
    - exists []. split; constructor.
    - destruct IH as [p [H1 H2]].
      destruct (topk1_max_index _ _ Hx) as [v [i [-> Hi]]].
      exists (i :: p). split; [now constructor|]. simpl. now rewrite H2. }
  exists prediction. split; [now apply result_map_Forall2|].
  unfold column. rewrite H2. f_equal.
  apply (Forall2_length H1).
Qed.

Lemma topk1_indices_total (t : list (list Q)) :
  Forall (fun d => d <> []) t -> exists next, topk1_indices t = Ok next.
Proof.
  intros H. unfold topk1_indices.
  destruct (result_map_total (topk 1) t) as [r Hr].
  - eapply Forall_impl; [|exact H]. intros d. apply topk1_total.
  - rewrite Hr. simpl. eexists; reflexivity.
Qed.

(** *** The free-running loop *)

Lemma free_running_loop_chain self steps :
  forall input hidden enc f acc w decode_results w',
    free_running_loop self steps input hidden enc f acc w =
    (Ok decode_results, w') ->
    exists rest,
      decode_results = acc ++ rest /\
      length rest = steps /\
      greedy_chain self hidden enc f input w rest w'.
Proof.
  induction steps as [|steps IH];
    intros input hidden enc f acc w dr w' H; simpl in H.
  - inversion H; subst. exists []. rewrite app_nil_r.
    repeat split. constructor.
  - unfold bind at 1 in H.
    destruct (_forward_step self input hidden enc f w) as [[ps|e] w1] eqn:Hps;
      try discriminate.
    rewrite last_last in H. unfold bind, lift in H.
    destruct (topk1_indices (squeeze1 ps)) as [next|e] eqn:Hk;
      try discriminate.
    destruct (topk1_indices_column _ _ Hk) as [prediction [Hp ->]].
    destruct (IH _ _ _ _ _ _ _ _ H) as [rest [-> [Hl Hc]]].
    exists (squeeze1 ps :: rest). rewrite <- app_assoc. simpl.
    repeat split; auto. econstructor; eauto.
Qed.

Lemma squeeze1_step self input hidden enc f w ps w' :
  _forward_step self input hidden enc f w = (Ok ps, w') ->
  size1 input = 1 ->
  length (squeeze1 ps) = size0 input /\
  Forall (fun d => exists x, d = f (Linear_forward (out self) x)) (squeeze1 ps).
Proof.
  intros Hps H1.
  destruct (_forward_step_shape _ _ _ _ _ _ _ _ Hps) as [[Hn Hr] _].
  pose proof (_forward_step_dists _ _ _ _ _ _ _ _ Hps) as Hd.
  unfold squeeze1. rewrite length_map. split; auto.
  apply Forall_forall. intros d Hin. apply in_map_iff in Hin.
  destruct Hin as [r [<- Hin]].
  rewrite Forall_forall in Hr, Hd. specialize (Hr r Hin). specialize (Hd r Hin).
  rewrite H1 in Hr. destruct r as [|d [|d' r]]; simpl in Hr; try lia.
  simpl. now inversion Hd.
Qed.

Lemma max_index_length (t : list (list Q)) prediction :
  result_map max_index t = Ok prediction -> length prediction = length t.
Proof.
  intros H. apply result_map_Forall2 in H. symmetry.
  apply (Forall2_length H).
Qed.

Lemma max_index_bound row i : max_index row = Ok i -> i < length row.
Proof.
  intros H. destruct (max_index_spec _ _ H) as [v [Hn _]].
  apply nth_error_Some. congruence.
Qed.

Lemma indices_in_range_column e prediction :
  Forall (fun i => i < num_embeddings e) prediction ->
  indices_in_range e (column prediction) = true.
Proof.
  intros H. unfold indices_in_range. apply forallb_forall.
  intros r Hr. unfold rows in Hr. apply in_map_iff in Hr.
  destruct Hr as [b [<- Hb]]. apply in_seq in Hb. simpl in *.
  rewrite andb_true_r. apply Nat.ltb_lt.
  rewrite Forall_forall in H. apply H.
  replace (nth 0 (nth b (map (fun i => [i]) prediction) []) 0)
    with (nth b prediction 0).
  - apply nth_In. lia.
  - clear. revert b. induction prediction as [|x p IH]; intros [|b]; simpl; auto.
Qed.

(** The argmax of distributions of the decoder can be fed back to it. *)
Lemma prediction_in_range self f (t : list (list Q)) prediction :
  predictions_in_range self f ->
  Forall (fun d => exists x, d = f (Linear_forward (out self) x)) t ->
  result_map max_index t = Ok prediction ->
  indices_in_range (embedding self) (column prediction) = true.
Proof.
  intros Hv Hd Hp. apply indices_in_range_column.
  apply result_map_Forall2 in Hp.
  induction Hp as [|d i t p Hi Hp IH]; constructor.
  - inversion Hd as [|? ? [x ->] _]; subst.
    apply max_index_bound in Hi. specialize (Hv x). lia.
  - apply IH. now inversion Hd.
Qed.

Lemma free_running_loop_total self steps :
  forall input hidden enc f acc w,
    step_accepts self input hidden enc ->
    scores_vocabulary self f ->
    predictions_in_range self f ->
    size1 input = 1 ->
    exists decode_results w',
      free_running_loop self steps input hidden enc f acc w =
      (Ok decode_results, w').
Proof.
  induction steps as [|steps IH];
    intros input hidden enc f acc w Hacc Hv Hr H1; simpl.
  - eexists _, _. reflexivity.
  - destruct (_forward_step_total self input hidden enc f w Hacc)
      as [ps [w1 Hps]].
    unfold bind at 1. rewrite Hps. rewrite last_last.
    destruct (squeeze1_step _ _ _ _ _ _ _ _ Hps H1) as [Hl Hd].
    destruct (topk1_indices_total (squeeze1 ps)) as [next Hk].
    { eapply Forall_impl; [|exact Hd]. intros d [x ->]. apply Hv. }
    unfold bind, lift. rewrite Hk.
    destruct (topk1_indices_column _ _ Hk) as [prediction [Hp ->]].
    apply IH; auto.
    destruct Hacc as [_ [Hm [Hh [Ha [H0 _]]]]].
    pose proof (max_index_length _ _ Hp) as Hlen.
    unfold step_accepts. simpl. rewrite Hlen, Hl.
    repeat split; auto; try lia.
    eapply prediction_in_range; eauto.
Qed.

Lemma greedy_chain_steps self hidden enc f input w rest w' :
  greedy_chain self hidden enc f input w rest w' ->
  size1 input = 1 ->
  Forall (fun step =>
            length step = size0 input /\
            Forall (fun d => exists x, d = f (Linear_forward (out self) x))
              step) rest.
Proof.
  induction 1 as [|input w ps w1 prediction rest w2 Hps Hp Hc IH];
    intros H1; constructor.
  - eapply squeeze1_step; eauto.
  - destruct (squeeze1_step _ _ _ _ _ _ _ _ Hps H1) as [Hl _].
    assert (Hsz : size0 (column prediction) = size0 input).
    { simpl. rewrite (max_index_length _ _ Hp). exact Hl. }
    rewrite <- Hsz. apply IH. reflexivity.
Qed.

Lemma stack_steps (ts : list (list (list Q))) n (P : list Q -> Prop) :
  ts <> [] ->
  Forall (fun t => length t = n /\ Forall P t) ts ->
  exists logit,
    stack_dim1 ts = Ok logit /\
    shape n (length ts) logit /\
    Forall (Forall P) logit.
Proof.
  intros Hne Hall.
  exists (map (fun b => map (fun t => nth b t []) ts) (seq 0 n)).
  split; [|split; [split|]].
  - apply stack_dim1_ok; auto.
    eapply Forall_impl; [|exact Hall]. now intros t [H _].
  - now rewrite length_map, length_seq.
  - apply Forall_forall. intros r Hr. apply in_map_iff in Hr.
    destruct Hr as [b [<- _]]. now rewrite length_map.
  - apply Forall_forall. intros r Hr. apply in_map_iff in Hr.
    destruct Hr as [b [<- Hb]]. apply in_seq in Hb.
    apply Forall_forall. intros d Hd. apply in_map_iff in Hd.
    destruct Hd as [t [<- Ht]].
    rewrite Forall_forall in Hall. destruct (Hall t Ht) as [Hl HP].
    rewrite Forall_forall in HP. apply HP. apply nth_In. lia.
Qed.

(** ** The claims on the decode call *)

Lemma Z_steps n : Z.to_nat (Z.of_nat n - 1) = n - 1.
Proof. lia. Qed.

(** X1.  A call on a target of fewer than two tokens raises in both non-beam
    modes: the step decoder rejects an empty sequence,
    [inputs[:, 0]] does not exist in an empty one, and [torch.stack] rejects
    the empty list the loop leaves for a single token. *)
Lemma forward_short_target_raises self inputs lh enc f ratio w :
  size1 inputs <= 1 ->
  exists e w', forward self inputs lh enc f ratio false w = (Err e, w').
Proof.
  intros HL. rewrite forward_non_beam. unfold decode_branch.
  destruct (Qlt_bool (coin w) ratio).
  - unfold teacher_forced_decode, bind.
    destruct (_forward_step self (drop_last_column inputs) _ enc f _)
      as [[ps|e] w1] eqn:Hps.
    + apply _forward_step_shape in Hps. simpl in Hps. lia.
    + eexists _, _. reflexivity.
  - unfold free_running_decode, first_column, bind, lift.
    destruct (size1 inputs) as [|[|L]] eqn:E; try lia; simpl.
    + eexists _, _. reflexivity.
    + eexists _, _. reflexivity.
Qed.

(** X2.  A call on an empty batch raises in both non-beam modes: the step
    decoder cannot reshape its output. *)
Lemma forward_empty_batch_raises self inputs lh enc f ratio w :
  size0 inputs = 0 ->
  exists e w', forward self inputs lh enc f ratio false w = (Err e, w').
Proof.
  intros HB.
  destruct (forward self inputs lh enc f ratio false w) as [[[y l]|e] w'] eqn:H;
    [|eexists _, _; reflexivity].
  exfalso.
  destruct (forward_non_beam_inv _ _ _ _ _ _ _ _ _ _ H)
    as [dr [logit [Hdec [_ [Hstack _]]]]].
  unfold decode_branch in Hdec. destruct (Qlt_bool (coin w) ratio).
  - unfold teacher_forced_decode, bind in Hdec.
    destruct (_forward_step self (drop_last_column inputs) _ enc f _)
      as [[ps|e] w1] eqn:Hps; try discriminate.
    apply _forward_step_shape in Hps. simpl in Hps. lia.
  - unfold free_running_decode in Hdec.
    unfold bind at 1 in Hdec. unfold lift at 1 in Hdec.
    unfold first_column in Hdec.
    destruct (size1 inputs =? 0); try discriminate.
    destruct (free_running_loop_chain _ _ _ _ _ _ _ _ _ _ Hdec)
      as [rest [-> [_ Hchain]]]. simpl in Hstack.
    inversion Hchain as [|? ? ps w1 ? ? ? Hps]; subst.
    + simpl in Hstack. discriminate.
    + apply _forward_step_shape in Hps. simpl in Hps. lia.
Qed.

Lemma free_running_loop_ignores_limits m e self steps :
  forall input hidden enc f acc w,
    free_running_loop (with_limits m e self) steps input hidden enc f acc w =
    free_running_loop self steps input hidden enc f acc w.
Proof.
  induction steps as [|steps IH]; intros input hidden enc f acc w; simpl; auto.
  unfold bind at 1 3.
  change (_forward_step (with_limits m e self) input hidden enc f w)
    with (_forward_step self input hidden enc f w).
  destruct (_forward_step self input hidden enc f w) as [[ps|err] w1]; auto.
  unfold bind, lift.
  destruct (topk1_indices _) as [next|err]; auto.
Qed.

(** A non-beam call reads neither [max_len] nor [eos_id]. *)
Lemma forward_ignores_limits m e self inputs lh enc f ratio w :
  forward (with_limits m e self) inputs lh enc f ratio false w =
  forward self inputs lh enc f ratio false w.
Proof.
  rewrite !forward_non_beam.
  change (drawn_hidden (with_limits m e self) inputs w)
    with (drawn_hidden self inputs w).
  change (world_after_draws (with_limits m e self) inputs w)
    with (world_after_draws self inputs w).
  replace (decode_branch (with_limits m e self) inputs
             (drawn_hidden self inputs w) enc f (Qlt_bool (coin w) ratio)
             (world_after_draws self inputs w))
    with (decode_branch self inputs (drawn_hidden self inputs w) enc f
            (Qlt_bool (coin w) ratio) (world_after_draws self inputs w));
    auto.
  unfold decode_branch. destruct (Qlt_bool (coin w) ratio); auto.
  unfold free_running_decode, bind, lift.
  destruct (first_column inputs) as [input|err]; auto.
  symmetry. apply free_running_loop_ignores_limits.
Qed.

(** C1 (amended).  In free-running mode, on a batch of at least one target
    of at least two tokens whose first tokens are in the vocabulary, a
    decoder with a GRU or RNN cell that scores a non-empty vocabulary no
    larger than its embedding (and, if it uses attention, is given a
    non-empty encoder sequence of the same batch size) runs one step per
    target position but the last: the first step reads the first column of
    the targets, each later step the greedy argmax of the step before it,
    and the call returns exactly [inputs.size(1) - 1] distributions per
    batch element, whatever tokens it emits; the call reads neither the
    [max_len] nor the [eos_id] of the decoder. *)
Theorem free_running_runs_every_step self inputs lh enc f ratio w :
  mode (rnn self) <> LSTM ->
  state_attributes_agree self ->
  (forall b, b < size0 inputs ->
     item inputs b 0 < num_embeddings (embedding self)) ->
  scores_vocabulary self f ->
  predictions_in_range self f ->
  attention_ready self enc (size0 inputs) = true ->
  1 <= size0 inputs -> 2 <= size1 inputs ->
  Qlt_bool (coin w) ratio = false ->
  (exists input decode_results logit y_hats w',
     first_column inputs = Ok input /\
     greedy_chain self (drawn_hidden self inputs w) enc f input
       (world_after_draws self inputs w) decode_results w' /\
     length decode_results = size1 inputs - 1 /\
     stack_dim1 decode_results = Ok logit /\
     shape (size0 inputs) (size1 inputs - 1) logit /\
     forward self inputs lh enc f ratio false w =
     (Ok (y_hats, Some logit), w')) /\
  (forall maxlen eos,
     forward (with_limits maxlen eos self) inputs lh enc f ratio false w =
     forward self inputs lh enc f ratio false w).
Proof.
  intros Hm Hagree Htok Hv Hr Ha HB HL Hcoin.
  split; [|intros maxlen eos; apply forward_ignores_limits].
  rewrite forward_non_beam, Hcoin. unfold decode_branch, free_running_decode.
  unfold first_column. destruct (size1 inputs =? 0) eqn:E.
  { apply Nat.eqb_eq in E. lia. }
  set (input := {| size0 := size0 inputs; size1 := 1;
                   item := fun i _ => item inputs i 0 |}).
  unfold bind at 1. unfold lift at 1. rewrite Z_steps.
  assert (Hacc : step_accepts self input (drawn_hidden self inputs w) enc).
  { unfold step_accepts. simpl. repeat split; auto; try lia.
    - unfold indices_in_range, rows. simpl.
      apply forallb_forall. intros r Hin. apply in_map_iff in Hin.
      destruct Hin as [b [<- Hb]]. apply in_seq in Hb. simpl.
      rewrite andb_true_r. apply Nat.ltb_lt. apply Htok. lia.
    - now apply drawn_hidden_fits. }
  destruct (free_running_loop_total self (size1 inputs - 1) input
              (drawn_hidden self inputs w) enc f []
              (world_after_draws self inputs w) Hacc Hv Hr eq_refl)
    as [dr [w' Hloop]].
  rewrite Hloop.
  destruct (free_running_loop_chain _ _ _ _ _ _ _ _ _ _ Hloop)
    as [rest [-> [Hlen Hchain]]]. simpl.
  pose proof (greedy_chain_steps _ _ _ _ _ _ _ _ Hchain eq_refl) as Hsteps.
  destruct (stack_steps rest (size0 inputs)
              (fun d => exists x, d = f (Linear_forward (out self) x)))
    as [logit [Hstack [Hshape Hd]]]; auto.
  { destruct rest; simpl in Hlen; [lia|congruence]. }
  destruct (max_last_total logit) as [y Hy].
  { eapply Forall_impl; [|exact Hd]. intros r Hr0.
    eapply Forall_impl; [|exact Hr0]. intros d [x ->]. apply Hv. }
  exists input, rest, logit, y, w'. rewrite Hlen in Hshape.
  repeat split; auto; try apply Hshape.
  unfold finish. rewrite Hstack. simpl. rewrite Hy. reflexivity.
Qed.

(** C2 (amended).  In teacher-forced mode, on a batch of at least one target
    of at least two tokens of which all but the last are in the vocabulary,
    a decoder with a GRU or RNN cell that scores a non-empty vocabulary
    (and, if it uses attention, is given a non-empty encoder sequence of
    the same batch size) makes a single call of the step decoder, on the
    targets without their last column, and returns its output: exactly
    [inputs.size(1) - 1] distributions per batch element. *)
Theorem teacher_forced_returns_all_but_last self inputs lh enc f ratio w :
  mode (rnn self) <> LSTM ->
  state_attributes_agree self ->
  indices_in_range (embedding self) (drop_last_column inputs) = true ->
  scores_vocabulary self f ->
  attention_ready self enc (size0 inputs) = true ->
  1 <= size0 inputs -> 2 <= size1 inputs ->
  Qlt_bool (coin w) ratio = true ->
  exists predicted_softmax y_hats w',
    _forward_step self (drop_last_column inputs) (drawn_hidden self inputs w)
      enc f (world_after_draws self inputs w) = (Ok predicted_softmax, w') /\
    rows (drop_last_column inputs) = map (@removelast nat) (rows inputs) /\
    shape (size0 inputs) (size1 inputs - 1) predicted_softmax /\
    forward self inputs lh enc f ratio false w =
    (Ok (y_hats, Some predicted_softmax), w').
Proof.
  intros Hm Hagree Htok Hv Ha HB HL Hcoin.
  destruct (teacher_forced_total self inputs (drawn_hidden self inputs w)
              enc f (world_after_draws self inputs w))
    as [ps [w' [Hps [Hshape [Hdec Hstack]]]]].
  { unfold step_accepts. simpl. repeat split; auto; try lia.
    now apply drawn_hidden_fits. }
  destruct (max_last_total ps) as [y Hy].
  { pose proof (_forward_step_dists _ _ _ _ _ _ _ _ Hps) as Hd.
    eapply Forall_impl; [|exact Hd]. intros r Hr.
    eapply Forall_impl; [|exact Hr]. intros d [x ->]. apply Hv. }
  exists ps, y, w'. repeat split; auto; try apply Hshape.
  - unfold rows, drop_last_column. simpl. rewrite map_map.
    apply map_ext. intros i.
    destruct (size1 inputs) as [|L]; [lia|]. simpl pred.
    rewrite seq_S, map_app. simpl. now rewrite removelast_last.
  - rewrite forward_non_beam, Hcoin. unfold decode_branch. rewrite Hdec.
    unfold finish. rewrite Hstack. simpl. rewrite Hy. reflexivity.
Qed.

(** C5.  A non-beam decode call reads Python's generator exactly once, and
    the value read, compared once with [teacher_forcing_ratio], selects the
    branch that produces the whole of [decode_results]. *)
Theorem one_coin_flip_per_call self inputs lh enc f ratio w :
  py_random (snd (forward self inputs lh enc f ratio false w)) =
  advance 1 (py_random w) /\
  forward self inputs lh enc f ratio false w =
  match decode_branch self inputs (drawn_hidden self inputs w) enc f
          (Qlt_bool (coin w) ratio) (world_after_draws self inputs w) with
  | (Ok decode_results, w') => (finish decode_results, w')
  | (Err e, w') => (Err e, w')
  end.
Proof.
  split; [|apply forward_non_beam].
  rewrite forward_non_beam.
  pose proof (decode_branch_py self inputs (drawn_hidden self inputs w) enc f
                (Qlt_bool (coin w) ratio) (world_after_draws self inputs w))
    as H.
  destruct (decode_branch _ _ _ _ _ _ _) as [[dr|e] w']; exact H.
Qed.

(** C10.  When a non-beam decode call returns, its first value is, at every
    batch element and every step, the first index of a maximal entry of the
    distribution its second value holds at that position. *)
Theorem y_hats_are_argmax_of_logit
  self inputs lh enc f ratio w y_hats logit_opt w' :
  forward self inputs lh enc f ratio false w = (Ok (y_hats, logit_opt), w') ->
  exists logit,
    logit_opt = Some logit /\
    max_last logit = Ok y_hats /\
    Forall2 (Forall2 first_max) logit y_hats.
Proof.
  intros H.
  destruct (forward_non_beam_inv _ _ _ _ _ _ _ _ _ _ H)
    as [dr [logit [_ [-> [_ Hm]]]]].
  exists logit. repeat split; auto.
  unfold max_last in Hm. apply result_map_Forall2 in Hm.
  eapply Forall2_impl; [|exact Hm]. intros r ys Hr.
  apply result_map_Forall2 in Hr.
  eapply Forall2_impl; [|exact Hr]. intros d i Hi.
  now apply max_index_spec.
Qed.

(** ** The claims on the step decoder and on construction *)

(** C6.  With an empty encoder-time dimension the attention module returns
    an input error, and a step of a decoder that uses attention never
    returns a distribution: it raises, with that input error whenever the
    embedding and the recurrent module have accepted their arguments and
    the attention module exists. *)
Theorem empty_encoder_is_rejected (enc : FloatTensor3) :
  dim1 enc = 0 ->
  (forall a decoder_output,
     Attention_forward a decoder_output enc = Err InputError) /\
  (forall self input hidden f w,
     use_attention self = true ->
     exists e w',
       _forward_step self input hidden enc f w = (Err e, w') /\
       (indices_in_range (embedding self) input = true ->
        mode (rnn self) <> LSTM ->
        state_fits (rnn self) (size0 input) hidden = true ->
        0 < size1 input ->
        attention self <> None -> e = InputError)).
Proof.
  intros Hd. split.
  - intros a d. unfold Attention_forward. now rewrite Hd.
  - intros self input hidden f w Hu.
    pose proof (_forward_step_unfold self input hidden enc f w) as H.
    destruct (Embedding_forward (embedding self) input) as [looked_up|e0]
      eqn:He.
    + destruct H as [embedded [w' [_ [_ [Hs H]]]]].
      rewrite H. clear H. exists
        (match rnn_forward (rnn self) embedded hidden with
         | Ok _ => match attention self with
                   | Some _ => InputError
                   | None => AttributeError
                   end
         | Err e => e
         end), w'. split.
      * destruct (rnn_forward (rnn self) embedded hidden) as [so|e];
          simpl; auto.
        unfold step_context, Attention_forward. rewrite Hu, Hd.
        destruct (attention self); reflexivity.
      * intros _ Hm Hl H1 Ha.
        rewrite rnn_forward_total; auto.
        -- destruct (attention self); congruence.
        -- destruct Hs as [-> _]. exact Hl.
        -- eapply no_empty_sequence; eauto.
    + exists e0, w. split; [exact H|].
      intros Hin. rewrite (Embedding_forward_ok _ _ Hin) in He. discriminate.
Qed.

(** *** The cell kind *)

Lemma lower_ascii_letter a c :
  97 <= nat_of_ascii a <= 122 ->
  lower_ascii c = a <->
  (nat_of_ascii c = nat_of_ascii a \/ nat_of_ascii c + 32 = nat_of_ascii a).
Proof.
  intros Ha. unfold lower_ascii.
  destruct ((65 <=? nat_of_ascii c) && (nat_of_ascii c <=? 90)) eqn:E.
  - apply andb_true_iff in E. destruct E as [E1 E2].
    apply Nat.leb_le in E1, E2. split.
    + intros <-. right. rewrite nat_ascii_embedding; lia.
    + intros [H|H]; [lia|]. rewrite H. apply ascii_nat_embedding.
  - assert (Hc : ~ (65 <= nat_of_ascii c <= 90)).
    { intros [H1 H2]. apply Nat.leb_le in H1, H2. rewrite H1, H2 in E.
      discriminate. }
    split.
    + intros ->. now left.
    + intros [H|H]; [|lia].
      rewrite <- (ascii_nat_embedding c), H. apply ascii_nat_embedding.
Qed.

(** [lower] compares as [reads_as] does, letter by letter. *)
Lemma lower_reads_as name : forall kind,
  Forall (fun a => 97 <= nat_of_ascii a <= 122) (list_ascii_of_string name) ->
  lower kind = name <-> reads_as name kind = true.
Proof.
  induction name as [|a name IH]; intros kind Hn.
  - destruct kind; simpl; split; congruence.
  - inversion Hn as [|? ? Ha Hn']; subst. destruct kind as [|c kind].
    + simpl. split; discriminate.
    + simpl. rewrite andb_true_iff, orb_true_iff, !Nat.eqb_eq.
      rewrite <- (IH kind Hn'), <- (lower_ascii_letter a c Ha).
      split.
      * intros H. inversion H. auto.
      * intros [-> ->]. reflexivity.
Qed.

Lemma lower_kind kind :
  (lower kind = "lstm"%string <-> reads_as "lstm" kind = true) /\
  (lower kind = "gru"%string <-> reads_as "gru" kind = true) /\
  (lower kind = "rnn"%string <-> reads_as "rnn" kind = true).
Proof.
  repeat split; apply lower_reads_as; simpl;
    repeat constructor; simpl; lia.
Qed.

(** C7.  [Speller.__init__] checks the cell kind first: a kind that does
    not read as lstm, gru or rnn when the case of its letters is ignored
    raises from the constructor, whatever the other arguments, so no
    decoder exists on which a call could be made; for a kind that reads as
    one of the three and hyper-parameters the torch constructors accept,
    the constructor returns a decoder that holds the cell of that kind;
    the only other failure of the constructor is the [ValueError] of a
    torch constructor, for hyper-parameters out of range. *)
Theorem cell_kind_checked_at_construction
  theta vocab maxlen hsize sos eos layers (kind : string) p att width :
  (reads_as "lstm" kind || reads_as "gru" kind || reads_as "rnn" kind = false ->
   __init__ theta vocab maxlen hsize sos eos layers kind p att width =
   Err AssertionError) /\
  (forall name cell_kind,
     In (name, cell_kind) [("lstm"%string, LSTM); ("gru"%string, GRU);
                           ("rnn"%string, RNN)] ->
     reads_as name kind = true ->
     (1 <= layers -> 1 <= hsize -> (0 <= p)%Q -> (p <= 1)%Q ->
      exists self,
        __init__ theta vocab maxlen hsize sos eos layers kind p att width =
        Ok self /\
        rnn_cell self = cell_kind /\ mode (rnn self) = cell_kind) /\
     (layers = 0 \/ hsize = 0 \/ ~ (0 <= p)%Q \/ ~ (p <= 1)%Q ->
      __init__ theta vocab maxlen hsize sos eos layers kind p att width =
      Err ValueError)).
Proof.
  destruct (lower_kind kind) as [H1 [H2 H3]].
  unfold __init__. split.
  - intros H. apply orb_false_iff in H. destruct H as [H Hr].
    apply orb_false_iff in H. destruct H as [Hl Hg].
    destruct (String.eqb_spec (lower kind) "lstm") as [E|E];
      [apply H1 in E; congruence|].
    destruct (String.eqb_spec (lower kind) "gru") as [E'|E'];
      [apply H2 in E'; congruence|].
    destruct (String.eqb_spec (lower kind) "rnn") as [E''|E''];
      [apply H3 in E''; congruence|].
    reflexivity.
  - intros name cell_kind Hin Hk.
    assert (Hsel :
      lower kind = name /\
      (if String.eqb (lower kind) "lstm" then LSTM
       else if String.eqb (lower kind) "gru" then GRU else RNN) = cell_kind /\
      String.eqb (lower kind) "lstm" || String.eqb (lower kind) "gru"
      || String.eqb (lower kind) "rnn" = true).
    { destruct Hin as [Hin|[Hin|[Hin|[]]]]; inversion Hin; subst;
        [apply H1 in Hk|apply H2 in Hk|apply H3 in Hk]; rewrite Hk;
        repeat split; reflexivity. }
    destruct Hsel as [_ [Hc Hv]]. rewrite Hv. cbn [negb]. split.
    + intros Hl Hh Hp0 Hp1.
      apply Qle_bool_iff in Hp0, Hp1. rewrite Hp0, Hp1.
      destruct layers; [lia|]. destruct hsize; [lia|]. cbn.
      eexists. split; [reflexivity|]. simpl. auto.
    + intros Hbad.
      destruct (Nat.eqb_spec layers 0) as [El|El]; [reflexivity|].
      destruct (Nat.eqb_spec hsize 0) as [Eh|Eh]; [reflexivity|]. cbn [orb].
      destruct (Qle_bool 0 p) eqn:E0; [|reflexivity].
      destruct (Qle_bool p 1) eqn:E1; [|reflexivity].
      apply Qle_bool_iff in E0, E1. exfalso.
      destruct Hbad as [Hb|[Hb|[Hb|Hb]]]; auto.
Qed.

(** C8.  A step of a decoder built without attention projects the output of
    the recurrent module itself; its result does not depend on the
    [attention] attribute, which may be absent, nor on the listener
    outputs, which may be empty; and it returns whenever its tokens are in
    the vocabulary, the recurrent module accepts the state and the input
    has no empty dimension. *)
Theorem no_attention_projects_raw_output self input hidden enc f w :
  use_attention self = false ->
  (forall looked_up,
     Embedding_forward (embedding self) input = Ok looked_up ->
     exists embedded w',
       Dropout_forward (input_dropout self) (training self) looked_up w =
       (Ok embedded, w') /\
       _forward_step self input hidden enc f w =
       (result_bind (rnn_forward (rnn self) embedded hidden)
          (fun speller_output =>
             view3 (size0 input) (size1 input)
               (map f (map (Linear_forward (out self))
                         (concat speller_output)))), w')) /\
  (forall a enc',
     _forward_step (with_attention a self) input hidden enc' f w =
     _forward_step self input hidden enc f w) /\
  (indices_in_range (embedding self) input = true ->
   mode (rnn self) <> LSTM ->
   state_fits (rnn self) (size0 input) hidden = true ->
   0 < size0 input -> 0 < size1 input ->
   exists predicted_softmax w',
     _forward_step self input hidden enc f w = (Ok predicted_softmax, w')).
Proof.
  intros Hu. split; [|split].
  - intros looked_up He.
    pose proof (_forward_step_unfold self input hidden enc f w) as H.
    rewrite He in H. destruct H as [embedded [w' [Hd [_ [_ H]]]]].
    exists embedded, w'. split; auto. rewrite H.
    unfold step_context. rewrite Hu.
    destruct (rnn_forward (rnn self) embedded hidden); reflexivity.
  - intros a enc'. unfold _forward_step, with_attention. simpl.
    rewrite Hu. reflexivity.
  - intros Hin Hm Hl H0 H1. apply _forward_step_total.
    unfold step_accepts, attention_ready. rewrite Hu. auto 10.
Qed.

(** ** Steps without dropout *)

Lemma combine_map {A B C} (g1 : A -> B) (g2 : A -> C) (l : list A) :
  combine (map g1 l) (map g2 l) = map (fun x => (g1 x, g2 x)) l.
Proof. induction l; simpl; congruence. Qed.

Lemma nth_map_seq {A} (g : nat -> A) n b d :
  b < n -> nth b (map g (seq 0 n)) d = g b.
Proof.
  intros Hb. rewrite (nth_indep _ d (g 0)) by now rewrite length_map, length_seq.
  rewrite map_nth, seq_nth; auto.
Qed.

Lemma rnn_scan_firstn c n : forall xs h,
  firstn n (rnn_scan c xs h) = rnn_scan c (firstn n xs) h.
Proof.
  induction n as [|n IH]; intros xs h; [reflexivity|].
  destruct xs as [|x xs]; [reflexivity|]. simpl. now rewrite IH.
Qed.

Lemma row_step_firstn self f h enc_b n toks :
  firstn n (row_step self f h enc_b toks) =
  row_step self f h enc_b (firstn n toks).
Proof.
  unfold row_step. now rewrite firstn_map, rnn_scan_firstn, firstn_map.
Qed.

Lemma row_step_length self f h enc_b toks :
  length (row_step self f h enc_b toks) = length toks.
Proof. unfold row_step. now rewrite length_map, rnn_scan_length, length_map. Qed.

Lemma _forward_step_det self input hidden enc f w :
  dropout_inactive self ->
  _forward_step self input hidden enc f w =
  (result_bind (Embedding_forward (embedding self) input) (fun embedded =>
   result_bind (rnn_forward (rnn self) embedded hidden) (fun so =>
   result_bind (step_context self so enc) (fun ctx =>
   view3 (size0 input) (size1 input)
     (map f (map (Linear_forward (out self)) (concat ctx)))))), w).
Proof.
  intros Hdet. unfold _forward_step. unfold bind at 1. unfold lift at 1.
  destruct (Embedding_forward (embedding self) input) as [embedded|e];
    [|reflexivity].
  cbn [result_bind]. unfold Dropout_forward. rewrite Hdet.
  unfold bind at 1. unfold ret at 1. unfold bind, lift, step_context.
  destruct (rnn_forward _ _ hidden) as [so|e]; simpl; auto.
  destruct (use_attention self); simpl; auto.
  destruct (attention self) as [a|]; simpl; auto.
  destruct (Attention_forward a so enc); simpl; auto.
Qed.

(** The recurrent module on the embedded rows of a tensor, one batch
    element at a time. *)
Lemma RNNBase_forward_rows self input hidden :
  mode (rnn self) <> LSTM ->
  state_fits (rnn self) (size0 input) hidden = true ->
  0 < size1 input ->
  RNNBase_forward (rnn self)
    (map (map (table (embedding self))) (rows input)) hidden =
  Ok (map (fun b => rnn_scan (cell (rnn self))
                      (map (table (embedding self))
                         (map (item input b) (seq 0 (size1 input))))
                      (nth b hidden []))
        (seq 0 (size0 input)),
      map (fun b => rnn_final (cell (rnn self))
                      (map (table (embedding self))
                         (map (item input b) (seq 0 (size1 input))))
                      (nth b hidden []))
        (seq 0 (size0 input))).
Proof.
  intros Hm Hfit H1.
  pose proof (state_fits_length _ _ _ Hfit) as Hl.
  rewrite RNNBase_forward_total; auto.
  - unfold rows. rewrite map_map.
    rewrite <- (nth_seq_map hidden []) at 1 2. rewrite Hl.
    rewrite combine_map, !map_map. reflexivity.
  - now rewrite length_map, (proj1 (rows_shape input)).
  - apply (no_empty_sequence (size0 input) (size1 input)); auto.
    apply shape_map, rows_shape.
Qed.

(** Without dropout a step leaves the world alone and treats the batch
    elements independently. *)
Lemma _forward_step_rows self input hidden enc f w :
  dropout_inactive self ->
  step_accepts self input hidden enc ->
  _forward_step self input hidden enc f w =
  (Ok (map (fun b => row_step self f (nth b hidden []) (encoder_row enc b)
                       (map (item input b) (seq 0 (size1 input))))
         (seq 0 (size0 input))), w).
Proof.
  intros Hdet [Hin [Hm [Hfit [Ha [H0 H1]]]]].
  rewrite (_forward_step_det _ _ _ _ _ _ Hdet). f_equal.
  rewrite (Embedding_forward_ok _ _ Hin). cbn [result_bind].
  unfold rnn_forward. rewrite RNNBase_forward_rows; auto.
  cbn [result_bind fst].
  set (so := map (fun b => rnn_scan (cell (rnn self))
                             (map (table (embedding self))
                                (map (item input b) (seq 0 (size1 input))))
                             (nth b hidden []))
               (seq 0 (size0 input))).
  assert (Hctx :
    step_context self so enc =
    Ok (map (fun b =>
               map (fun o => if use_attention self
                             then attend (encoder_row enc b) o else o)
                 (rnn_scan (cell (rnn self))
                    (map (table (embedding self))
                       (map (item input b) (seq 0 (size1 input))))
                    (nth b hidden [])))
          (seq 0 (size0 input)))).
  { unfold step_context, attention_ready in *.
    destruct (use_attention self).
    - destruct (attention self) as [a|]; try discriminate.
      apply andb_true_iff in Ha. destruct Ha as [Ha1 Ha2].
      apply negb_true_iff in Ha1. apply Nat.eqb_eq in Ha2.
      unfold Attention_forward. rewrite Ha1. unfold so at 1.
      rewrite length_map, length_seq, Ha2, Nat.eqb_refl. simpl.
      unfold slices, so. rewrite Ha2, combine_map, map_map. reflexivity.
    - unfold so. f_equal. apply map_ext. intros b. now rewrite map_id. }
  rewrite Hctx. cbn [result_bind]. rewrite map_map.
  match goal with
  | |- context [concat ?c] =>
      rewrite (view3_project _ (size0 input) (size1 input) c)
  end.
  - destruct (size0 input * size1 input =? 0) eqn:E0.
    + apply Nat.eqb_eq in E0. nia.
    + rewrite map_map. unfold row_step. f_equal. apply map_ext. intros b.
      now rewrite map_map.
  - split.
    + now rewrite length_map, length_seq.
    + apply Forall_forall. intros r Hr. apply in_map_iff in Hr.
      destruct Hr as [b [<- _]].
      now rewrite length_map, rnn_scan_length, !length_map, length_seq.
Qed.

(** What a step that returns has computed, without dropout. *)
Lemma _forward_step_rows_inv self input hidden enc f w ps w' :
  dropout_inactive self ->
  _forward_step self input hidden enc f w = (Ok ps, w') ->
  w' = w /\
  ps = map (fun b => row_step self f (nth b hidden []) (encoder_row enc b)
                       (map (item input b) (seq 0 (size1 input))))
         (seq 0 (size0 input)).
Proof.
  intros Hdet Hps.
  pose proof (_forward_step_ok_inv _ _ _ _ _ _ _ _ Hps) as Hacc.
  rewrite (_forward_step_rows _ _ _ _ _ _ Hdet Hacc) in Hps.
  inversion Hps; subst. auto.
Qed.

(** Without dropout a step on one token per batch element leaves the world
    alone and treats the batch elements independently. *)
Lemma _forward_step_column self input hidden enc f w :
  dropout_inactive self ->
  step_accepts self input hidden enc ->
  size1 input = 1 ->
  _forward_step self input hidden enc f w =
  (Ok (map (fun b => [row_dist self f (nth b hidden []) (encoder_row enc b)
                        (item input b 0)])
         (seq 0 (size0 input))), w).
Proof.
  intros Hdet Hacc H1.
  rewrite (_forward_step_rows _ _ _ _ _ _ Hdet Hacc), H1. reflexivity.
Qed.

Lemma item_column prediction b : item (column prediction) b 0 = nth b prediction 0.
Proof.
  unfold column, of_rows. simpl. revert b.
  induction prediction as [|x p IH]; intros [|b]; simpl; auto.
Qed.

Lemma Forall2_nth {A B} (R : A -> B -> Prop) l l' b d d' :
  Forall2 R l l' -> b < length l -> R (nth b l d) (nth b l' d').
Proof.
  intros H. revert b. induction H; intros [|b] Hb; simpl in *; try lia; auto.
  apply IHForall2. lia.
Qed.


Lemma result_map_map_ok {A B C} (f : B -> result C) (g : A -> B) (h : A -> C)
  (l : list A) :
  (forall x, In x l -> f (g x) = Ok (h x)) ->
  result_map f (map g l) = Ok (map h l).
Proof.
  induction l as [|x l IH]; intros H; simpl; auto.
  rewrite (H x) by now left. simpl. rewrite IH; auto.
  intros y Hy. apply H. now right.
Qed.

Lemma max_last_stack (dr : list (list (list Q))) preds n logit y_hats :
  dr <> [] ->
  Forall (fun step => length step = n) dr ->
  Forall2 (fun step p => result_map max_index step = Ok p) dr preds ->
  stack_dim1 dr = Ok logit -> max_last logit = Ok y_hats ->
  y_hats = map (fun b => map (fun p => nth b p 0) preds) (seq 0 n).
Proof.
  intros Hne Hlen HF Hs Hm.
  rewrite (stack_dim1_ok dr n Hne Hlen) in Hs. inversion Hs; subst logit.
  unfold max_last in Hm.
  rewrite (result_map_map_ok _ _ (fun b => map (fun p => nth b p 0) preds))
    in Hm; [now inversion Hm|].
  intros b Hb. apply in_seq in Hb. clear Hm Hs Hne.
  induction HF as [|step p dr preds Hp HF IH]; simpl; auto.
  inversion Hlen as [|? ? Hstep Hlen']; subst.
  apply result_map_Forall2 in Hp.
  pose proof (Forall2_nth _ _ _ b [] 0 Hp) as Hn. simpl in Hn.
  rewrite Hn by lia. simpl. rewrite IH; auto.
Qed.

Lemma attention_ready_single self enc n b :
  attention_ready self enc n = true ->
  attention_ready self
    {| dim0 := 1; dim1 := dim1 enc; elt := fun _ t => elt enc b t |} 1 = true.
Proof.
  unfold attention_ready. destruct (use_attention self); auto.
  destruct (attention self); auto. simpl. intros H.
  apply andb_true_iff in H. destruct H as [H _]. now rewrite H.
Qed.

(** A step that accepts a batch accepts each of its elements alone. *)
Lemma step_accepts_row self input hidden enc b :
  step_accepts self input hidden enc -> b < size0 input ->
  step_accepts self (row_tensor input b) [nth b hidden []]
    (encoder_slice enc b).
Proof.
  intros [Hin [Hm [Hfit [Ha [H0 H1]]]]] Hb.
  pose proof (state_fits_length _ _ _ Hfit) as Hl.
  unfold step_accepts. cbn [size0 size1 row_tensor].
  repeat split; auto.
  - unfold indices_in_range in *. unfold rows at 1.
    cbn [size0 size1 row_tensor item seq map forallb]. rewrite andb_true_r.
    rewrite forallb_forall in Hin. apply Hin.
    unfold rows. apply in_map_iff. exists b. split; auto.
    apply in_seq. lia.
  - unfold state_fits in *. cbn [length forallb]. rewrite Nat.eqb_refl.
    rewrite andb_true_r. cbn [andb].
    apply andb_true_iff in Hfit. destruct Hfit as [_ Hfit].
    rewrite forallb_forall in Hfit. apply Hfit. apply nth_In. lia.
  - unfold encoder_slice. eapply attention_ready_single; eauto.
Qed.

(** ** Beam search of width one *)












Lemma forward_beam self inputs lh enc f ratio w :
  forward self inputs lh enc f ratio true w =
  match first_column inputs with
  | Err e => (Err e, world_after_draws self inputs w)
  | Ok input =>
      match Beam_search
              {| beam_k := k self;
                 decoder_hidden := drawn_hidden self inputs w;
                 decoder := self;
                 beam_batch_size := size0 inputs;
                 beam_max_len := (Z.of_nat (size1 inputs) - 1)%Z;
                 beam_function := f |} input enc
              (world_after_draws self inputs w) with
      | (Ok y_hats, w') => (Ok (y_hats, None), w')
      | (Err e, w') => (Err e, w')
      end
  end.
Proof.
  unfold forward, drawn_hidden, world_after_draws.
  unfold bind at 1 2. unfold uniform_ at 1, random_random at 1.
  cbv beta iota. cbn [py_random torch_random].
  unfold uniform_. cbv beta iota zeta.
  unfold bind at 1. unfold lift at 1.
  destruct (first_column inputs) as [input|e]; reflexivity.
Qed.




(** The index map of [uniform_] gives every element of the state its own
    number of the generator. *)
Lemma state_positions batch hidden l b h l' b' h' :
  b < batch -> h < hidden -> b' < batch -> h' < hidden ->
  (l * batch + b) * hidden + h = (l' * batch + b') * hidden + h' ->
  l = l' /\ b = b' /\ h = h'.
Proof.
  intros Hb Hh Hb' Hh' E.
  destruct (Nat.div_mod_unique hidden (l * batch + b) (l' * batch + b') h h')
    as [E1 E2]; auto; [lia|].
  destruct (Nat.div_mod_unique batch l l' b b') as [E3 E4]; auto; lia.
Qed.

(** C4.  A decode call initialises its hidden state by a draw from the
    torch generator and from nothing else.  Element [(l, b, h)] of the
    state is the number the generator holds [(l * batch + b) * hidden + h]
    places after its cursor, mapped affinely from the unit interval
    onto [-0.1, 0.1]; distinct elements read distinct numbers, all of them
    among those the draw consumes, so that the next call reads fresh ones.
    In every mode the call is its decoding run on that state, and
    [listener_hidden] is not read: two calls that differ only in it are the
    same computation. *)
Theorem hidden_state_is_drawn_afresh self inputs enc f ratio :
  (forall w,
     uniform_ (-0.1) 0.1 (layer_size self) (size0 inputs) (hidden_size self) w
     = (Ok (drawn_hidden self inputs w),
        {| py_random := py_random w;
           torch_random :=
             advance (layer_size self * size0 inputs * hidden_size self)
               (torch_random w) |})) /\
  (forall w b l h,
     b < size0 inputs -> l < layer_size self -> h < hidden_size self ->
     nth h (nth l (nth b (drawn_hidden self inputs w) []) []) 0%Q =
     (-0.1 + (0.1 - -0.1)
             * tape (torch_random w)
                 (cursor (torch_random w)
                  + (l * size0 inputs + b) * hidden_size self + h))%Q /\
     (l * size0 inputs + b) * hidden_size self + h
     < layer_size self * size0 inputs * hidden_size self) /\
  (forall l b h l' b' h',
     b < size0 inputs -> h < hidden_size self ->
     b' < size0 inputs -> h' < hidden_size self ->
     (l * size0 inputs + b) * hidden_size self + h =
     (l' * size0 inputs + b') * hidden_size self + h' ->
     l = l' /\ b = b' /\ h = h') /\
  (forall lh w,
     forward self inputs lh enc f ratio false w =
     match decode_branch self inputs (drawn_hidden self inputs w) enc f
             (Qlt_bool (coin w) ratio) (world_after_draws self inputs w) with
     | (Ok decode_results, w') => (finish decode_results, w')
     | (Err e, w') => (Err e, w')
     end) /\
  (forall lh w,
     forward self inputs lh enc f ratio true w =
     match first_column inputs with
     | Err e => (Err e, world_after_draws self inputs w)
     | Ok input =>
         match Beam_search
                 {| beam_k := k self;
                    decoder_hidden := drawn_hidden self inputs w;
                    decoder := self;
                    beam_batch_size := size0 inputs;
                    beam_max_len := (Z.of_nat (size1 inputs) - 1)%Z;
                    beam_function := f |} input enc
                 (world_after_draws self inputs w) with
         | (Ok y_hats, w') => (Ok (y_hats, None), w')
         | (Err e, w') => (Err e, w')
         end
     end) /\
  (forall lh lh' beam,
     forward self inputs lh enc f ratio beam =
     forward self inputs lh' enc f ratio beam).
Proof.
  split; [|split; [|split; [|split; [|split]]]].
  - intros w. reflexivity.
  - intros w b l h Hb Hl Hh. split.
    + unfold drawn_hidden, uniform_. cbv zeta.
      rewrite (nth_map_seq _ _ _ _ Hb), (nth_map_seq _ _ _ _ Hl),
        (nth_map_seq _ _ _ _ Hh).
      reflexivity.
    + assert (H1 : l * size0 inputs + b + 1 <= layer_size self * size0 inputs)
        by nia.
      apply Nat.lt_le_trans
        with ((l * size0 inputs + b + 1) * hidden_size self); [lia|].
      now apply Nat.mul_le_mono_r.
  - intros l b h l' b' h'. apply state_positions.
  - intros lh w. apply forward_non_beam.
  - intros lh w. apply forward_beam.
  - intros lh lh' beam. reflexivity.
Qed.


(** X3.  Every non-beam decode call of a decoder built with an LSTM cell
    raises: the recurrent module is handed a single state tensor, where
    [nn.LSTM] takes a pair, unless the embedding has raised before it. *)
Lemma lstm_decode_raises self inputs lh enc f ratio w :
  mode (rnn self) = LSTM ->
  exists e w', forward self inputs lh enc f ratio false w = (Err e, w').
Proof.
  intros Hm.
  destruct (forward self inputs lh enc f ratio false w) as [[[y l]|e] w'] eqn:H;
    [|eexists _, _; reflexivity].
  exfalso.
  destruct (forward_non_beam_inv _ _ _ _ _ _ _ _ _ _ H)
    as [dr [logit [Hdec [_ [Hstack _]]]]].
  unfold decode_branch in Hdec. destruct (Qlt_bool (coin w) ratio).
  - unfold teacher_forced_decode, bind in Hdec.
    destruct (_forward_step self (drop_last_column inputs) _ enc f _)
      as [[ps|e] w1] eqn:Hps; try discriminate.
    apply _forward_step_ok_inv in Hps. unfold step_accepts in Hps. tauto.
  - unfold free_running_decode in Hdec.
    unfold bind at 1 in Hdec. unfold lift at 1 in Hdec.
    destruct (first_column inputs) as [input|e]; try discriminate.
    destruct (free_running_loop_chain _ _ _ _ _ _ _ _ _ _ Hdec)
      as [rest [-> [_ Hchain]]]. simpl in Hstack.
    inversion Hchain as [|? ? ps w1 ? ? ? Hps]; subst.
    + simpl in Hstack. discriminate.
    + apply _forward_step_ok_inv in Hps. unfold step_accepts in Hps. tauto.
Qed.

(** The initial state lies in [-0.1, 0.1] when the generator yields numbers
    of the unit interval. *)
Lemma drawn_hidden_range self inputs w :
  (forall n, (0 <= tape (torch_random w) n <= 1)%Q) ->
  Forall (Forall (Forall (fun x => (-0.1 <= x <= 0.1)%Q)))
    (drawn_hidden self inputs w).
Proof.
  intros Ht. unfold drawn_hidden, uniform_.
  apply Forall_forall. intros s Hs. apply in_map_iff in Hs.
  destruct Hs as [b [<- _]].
  apply Forall_forall. intros v Hv. apply in_map_iff in Hv.
  destruct Hv as [l [<- _]].
  apply Forall_forall. intros x Hx. apply in_map_iff in Hx.
  destruct Hx as [h [<- _]].
  specialize (Ht (cursor (torch_random w) + (l * size0 inputs + b) * hidden_size self + h)).
  destruct Ht as [Ht0 Ht1]. split; lra.
Qed.

(** ** Further properties of the decode call *)

(** X9.  Without dropout a step that returns on a batch has computed, for
    every batch element, what the step returns on that element alone, with
    its own slice of the state and of the listener outputs. *)
Theorem step_batch_independent self input hidden enc f w ps w' b :
  dropout_inactive self ->
  _forward_step self input hidden enc f w = (Ok ps, w') ->
  b < size0 input ->
  _forward_step self (row_tensor input b) [nth b hidden []]
    (encoder_slice enc b) f w = (Ok [nth b ps []], w).
Proof.
  intros Hdet Hps Hb.
  pose proof (_forward_step_ok_inv _ _ _ _ _ _ _ _ Hps) as Hacc.
  destruct (_forward_step_rows_inv _ _ _ _ _ _ _ _ Hdet Hps) as [_ ->].
  rewrite _forward_step_rows; auto.
  - rewrite nth_map_seq by exact Hb. reflexivity.
  - now apply step_accepts_row.
Qed.

(** X11.  A step of a decoder that [__init__] has built returns or raises
    an index error (a token outside the vocabulary, or the state tensor
    indexed as a pair by an LSTM cell), a runtime error or, only when the
    decoder uses attention, an input error: the [attention] attribute it
    reads exists whenever it is read. *)
Theorem built_decoder_step_errors
  theta vocab maxlen hsize sos eos layers kind p att width self
  input hidden enc f w :
  __init__ theta vocab maxlen hsize sos eos layers kind p att width = Ok self ->
  match fst (_forward_step self input hidden enc f w) with
  | Ok _ => True
  | Err e =>
      (e = IndexError /\
       (indices_in_range (embedding self) input = false \/
        rnn_cell self = LSTM)) \/
      e = RuntimeError \/
      (e = InputError /\ att = true)
  end.
Proof.
  intros Hinit.
  assert (Hatt : use_attention self = att /\
                 (att = true -> attention self <> None) /\
                 mode (rnn self) = rnn_cell self).
  { unfold __init__ in Hinit.
    destruct (negb _); try discriminate.
    destruct (_ || _); try discriminate.
    inversion Hinit; subst. simpl.
    repeat split; auto. intros ->. discriminate. }
  destruct Hatt as [Hu [Ha Hcell]].
  pose proof (_forward_step_unfold self input hidden enc f w) as H.
  destruct (Embedding_forward (embedding self) input) as [looked_up|e0] eqn:He.
  - destruct H as [embedded [w' [_ [_ [Hs H]]]]].
    rewrite H. simpl. clear H.
    destruct (rnn_forward (rnn self) embedded hidden) as [so|e] eqn:Hr; simpl.
    + unfold step_context. rewrite Hu. destruct att.
      * destruct (attention self) as [a|]; [|now exfalso; apply Ha].
        unfold Attention_forward.
        destruct (dim1 enc =? 0); simpl; auto.
        destruct (negb (dim0 enc =? length so)); simpl; auto.
        unfold view3. destruct (_ =? 0); simpl; auto.
      * simpl. unfold view3. destruct (_ =? 0); simpl; auto.
    + apply rnn_forward_errors in Hr. rewrite Hcell in Hr.
      destruct Hr as [->|[-> Hr]]; auto.
  - rewrite H. simpl. left. unfold Embedding_forward in He.
    destruct (indices_in_range (embedding self) input); inversion He; auto.
Qed.

Lemma free_running_loop_det self steps :
  forall input hidden enc f acc w,
    dropout_inactive self ->
    snd (free_running_loop self steps input hidden enc f acc w) = w.
Proof.
  induction steps as [|steps IH]; intros input hidden enc f acc w Hdet;
    simpl; auto.
  unfold bind at 1. rewrite (_forward_step_det _ _ _ _ _ _ Hdet).
  destruct (result_bind _ _) as [ps|e]; auto.
  unfold bind, lift. destruct (topk1_indices _) as [next|e]; auto.
Qed.

Lemma decode_branch_det self inputs hidden enc f teacher w :
  dropout_inactive self ->
  snd (decode_branch self inputs hidden enc f teacher w) = w.
Proof.
  intros Hdet. unfold decode_branch. destruct teacher.
  - unfold teacher_forced_decode, bind.
    rewrite (_forward_step_det _ _ _ _ _ _ Hdet).
    destruct (result_bind _ _); auto.
  - unfold free_running_decode, bind, lift.
    destruct (first_column inputs) as [input|e]; auto.
    now apply free_running_loop_det.
Qed.

(** X5.  Without dropout a non-beam decode call, whether it returns or
    raises, leaves Python's generator advanced by one number and the torch
    generator advanced by the size of the state tensor,
    [layer_size * batch_size * hidden_size] numbers. *)
Theorem generators_after_decode self inputs lh enc f ratio w :
  dropout_inactive self ->
  py_random (snd (forward self inputs lh enc f ratio false w)) =
  advance 1 (py_random w) /\
  torch_random (snd (forward self inputs lh enc f ratio false w)) =
  advance (layer_size self * size0 inputs * hidden_size self)
    (torch_random w).
Proof.
  intros Hdet. rewrite forward_non_beam.
  pose proof (decode_branch_det self inputs (drawn_hidden self inputs w) enc f
                (Qlt_bool (coin w) ratio) (world_after_draws self inputs w)
                Hdet) as H.
  destruct (decode_branch _ _ _ _ _ _ _) as [[dr|e] w']; simpl in *; subst;
    auto.
Qed.

(** In teacher-forced mode the returned distributions are the output of the
    one call of the step decoder. *)
Lemma teacher_forced_logit self inputs lh enc f ratio w y_hats logit w' :
  Qlt_bool (coin w) ratio = true ->
  forward self inputs lh enc f ratio false w = (Ok (y_hats, Some logit), w') ->
  _forward_step self (drop_last_column inputs) (drawn_hidden self inputs w)
    enc f (world_after_draws self inputs w) = (Ok logit, w').
Proof.
  intros Hcoin Hf.
  destruct (forward_non_beam_inv _ _ _ _ _ _ _ _ _ _ Hf)
    as [dr [logit' [Hdec [Heq [Hstack _]]]]].
  inversion Heq; subst logit'. clear Heq.
  rewrite Hcoin in Hdec. unfold decode_branch, teacher_forced_decode in Hdec.
  unfold bind in Hdec.
  destruct (_forward_step self (drop_last_column inputs) _ enc f _)
    as [[ps|e] w1] eqn:Hps; try discriminate.
  unfold ret in Hdec. inversion Hdec; subst dr w1. clear Hdec.
  destruct (_forward_step_shape _ _ _ _ _ _ _ _ Hps) as [Hs [H0 H1]].
  assert (Hc : computed_size1 ps = size1 (drop_last_column inputs)).
  { destruct Hs as [Hn Hr]. destruct ps as [|r ps].
    - simpl in *. lia.
    - simpl. now inversion Hr. }
  rewrite Hc, (stack_select _ _ _ Hs H1) in Hstack.
  now inversion Hstack.
Qed.

(** X10.  Teacher forcing is causal: without dropout, two teacher-forced
    calls in the same world on targets of the same shape that agree on their
    first [n] columns return the same first [n] distributions for every
    batch element. *)
Theorem teacher_forcing_is_causal
  self inputs inputs' lh enc f ratio w y_hats logit w1 y_hats' logit' w1' n :
  dropout_inactive self ->
  Qlt_bool (coin w) ratio = true ->
  size0 inputs' = size0 inputs -> size1 inputs' = size1 inputs ->
  (forall b j, j < n -> item inputs' b j = item inputs b j) ->
  forward self inputs lh enc f ratio false w = (Ok (y_hats, Some logit), w1) ->
  forward self inputs' lh enc f ratio false w =
  (Ok (y_hats', Some logit'), w1') ->
  forall b, firstn n (nth b logit []) = firstn n (nth b logit' []).
Proof.
  intros Hdet Hcoin Hs0 Hs1 Hagree Hf Hf' b.
  apply (teacher_forced_logit _ _ _ _ _ _ _ _ _ _ Hcoin) in Hf.
  apply (teacher_forced_logit _ _ _ _ _ _ _ _ _ _ Hcoin) in Hf'.
  destruct (_forward_step_rows_inv _ _ _ _ _ _ _ _ Hdet Hf) as [_ ->].
  destruct (_forward_step_rows_inv _ _ _ _ _ _ _ _ Hdet Hf') as [_ ->].
  assert (Hh : drawn_hidden self inputs' w = drawn_hidden self inputs w)
    by (unfold drawn_hidden; now rewrite Hs0).
  rewrite Hh. cbn [size0 size1 item drop_last_column]. rewrite Hs0, Hs1.
  destruct (Nat.lt_ge_cases b (size0 inputs)) as [Hb|Hb].
  - rewrite !nth_map_seq by exact Hb. rewrite !row_step_firstn.
    f_equal. rewrite !firstn_map. apply map_ext_in. intros j Hj.
    symmetry. apply Hagree.
    assert (Hlen : length (firstn n (seq 0 (pred (size1 inputs)))) <= n)
      by apply firstn_le_length.
    destruct (In_nth _ _ 0 Hj) as [i [Hi Hnth]].
    assert (Hi' : i < n) by lia.
    rewrite nth_firstn in Hnth.
    apply Nat.ltb_lt in Hi'. rewrite Hi' in Hnth. apply Nat.ltb_lt in Hi'.
    rewrite length_firstn, length_seq in Hi.
    rewrite seq_nth in Hnth by lia. simpl in Hnth. lia.
  - rewrite !nth_overflow by (now rewrite length_map, length_seq).
    reflexivity.
Qed.

Lemma greedy_chain_dists self hidden enc f input w dr w' :
  greedy_chain self hidden enc f input w dr w' ->
  dropout_inactive self -> size1 input = 1 ->
  exists preds,
    Forall2 (fun step p => result_map max_index step = Ok p) dr preds /\
    forall b, b < size0 input ->
      map (fun step => nth b step []) dr =
      map (row_dist self f (nth b hidden []) (encoder_row enc b))
        (firstn (length dr)
           (item input b 0 :: map (fun p => nth b p 0) preds)).
Proof.
  intros Hc Hdet.
  induction Hc as [|input w ps w1 prediction rest w2 Hps Hp Hc IH];
    intros H1.
  - exists []. split; [constructor|]. intros b Hb. reflexivity.
  - pose proof (_forward_step_ok_inv _ _ _ _ _ _ _ _ Hps) as Hacc.
    rewrite (_forward_step_column _ _ _ _ _ _ Hdet Hacc H1) in Hps.
    inversion Hps; subst ps w1; clear Hps.
    unfold squeeze1 in Hp. rewrite map_map in Hp. cbn [nth] in Hp.
    destruct (IH eq_refl) as [preds [HF Hrows]].
    exists (prediction :: preds). split.
    + constructor; auto. unfold squeeze1. rewrite map_map. exact Hp.
    + intros b Hb. cbn [map length firstn]. f_equal.
      * unfold squeeze1. rewrite map_map. cbn [nth].
        now rewrite nth_map_seq.
      * rewrite <- item_column. apply Hrows. simpl.
        rewrite (max_index_length _ _ Hp), length_map, length_seq. exact Hb.
Qed.

(** In free-running mode without dropout every distribution is the one the
    decoder computes from its initial state on the token before it. *)
Lemma free_running_logit_rows
  self inputs lh enc f ratio w y_hats logit w' b :
  dropout_inactive self ->
  Qlt_bool (coin w) ratio = false ->
  forward self inputs lh enc f ratio false w = (Ok (y_hats, Some logit), w') ->
  b < size0 inputs ->
  2 <= size1 inputs /\
  length (nth b y_hats []) = size1 inputs - 1 /\
  nth b logit [] =
  map (row_dist self f (nth b (drawn_hidden self inputs w) [])
         (encoder_row enc b))
    (firstn (size1 inputs - 1) (item inputs b 0 :: nth b y_hats [])).
Proof.
  intros Hdet Hcoin Hf Hb.
  destruct (forward_non_beam_inv _ _ _ _ _ _ _ _ _ _ Hf)
    as [dr [logit' [Hdec [Heq [Hstack Hmax]]]]].
  inversion Heq; subst logit'. clear Heq.
  rewrite Hcoin in Hdec. unfold decode_branch, free_running_decode in Hdec.
  unfold bind at 1 in Hdec. unfold lift at 1 in Hdec.
  destruct (first_column inputs) as [input|e] eqn:Hin; try discriminate.
  assert (Hsz : size0 input = size0 inputs /\ size1 input = 1 /\
                forall b, item input b 0 = item inputs b 0).
  { unfold first_column in Hin. destruct (size1 inputs =? 0); try discriminate.
    inversion Hin; subst. simpl. auto. }
  destruct Hsz as [Hs0 [Hs1 Hitem]].
  destruct (free_running_loop_chain _ _ _ _ _ _ _ _ _ _ Hdec)
    as [rest [-> [Hlen Hchain]]]. simpl in Hstack.
  rewrite Z_steps in Hlen.
  destruct (greedy_chain_dists _ _ _ _ _ _ _ _ Hchain Hdet Hs1)
    as [preds [HF Hrows]].
  pose proof (greedy_chain_steps _ _ _ _ _ _ _ _ Hchain Hs1) as Hsteps.
  assert (Hne : rest <> []).
  { intros ->. simpl in Hstack. discriminate. }
  assert (Hall : Forall (fun step => length step = size0 inputs) rest).
  { rewrite <- Hs0. eapply Forall_impl; [|exact Hsteps]. now intros t [H _]. }
  assert (Hy : y_hats =
               map (fun b => map (fun p => nth b p 0) preds)
                 (seq 0 (size0 inputs)))
    by (eapply max_last_stack; eauto).
  rewrite (stack_dim1_ok rest (size0 inputs) Hne Hall) in Hstack.
  inversion Hstack; subst logit. clear Hstack.
  rewrite Hy, !nth_map_seq by exact Hb.
  rewrite length_map, <- (Forall2_length HF), Hlen.
  split; [|split; auto].
  - destruct rest; [congruence|]. simpl in Hlen. lia.
  - rewrite <- Hlen, <- Hitem. apply Hrows. lia.
Qed.

(** X7.  Free-running decoding does not carry the recurrent state from one
    step to the next: without dropout, the distribution of every step is the
    one the decoder computes from the initial state of the call on the
    token before it alone, so two steps that follow the same token return
    the same distribution. *)
Theorem free_running_restarts_from_initial_state
  self inputs lh enc f ratio w y_hats logit w' b :
  dropout_inactive self ->
  Qlt_bool (coin w) ratio = false ->
  forward self inputs lh enc f ratio false w = (Ok (y_hats, Some logit), w') ->
  b < size0 inputs ->
  nth b logit [] =
  map (row_dist self f (nth b (drawn_hidden self inputs w) [])
         (encoder_row enc b))
    (firstn (size1 inputs - 1) (item inputs b 0 :: nth b y_hats [])) /\
  (forall t t' tok,
     t < size1 inputs - 1 -> t' < size1 inputs - 1 ->
     nth_error (item inputs b 0 :: nth b y_hats []) t = Some tok ->
     nth_error (item inputs b 0 :: nth b y_hats []) t' = Some tok ->
     nth_error (nth b logit []) t = nth_error (nth b logit []) t').
Proof.
  intros Hdet Hcoin Hf Hb.
  destruct (free_running_logit_rows _ _ _ _ _ _ _ _ _ _ _ Hdet Hcoin Hf Hb)
    as [_ [_ Hrow]].
  split; [exact Hrow|].
  intros t t' tok Ht Ht' Hn Hn'. rewrite Hrow.
  rewrite !nth_error_map, !nth_error_firstn.
  apply Nat.ltb_lt in Ht, Ht'. rewrite Ht, Ht', Hn, Hn'. reflexivity.
Qed.

(** X8.  The two non-beam modes agree on the first step: without dropout
    and in the same world, the first distribution of a teacher-forced call
    is the first distribution of a free-running call, for every batch
    element. *)
Theorem first_step_is_shared
  self inputs lh enc f ratio ratio' w y_hats logit w1 y_hats' logit' w1' b :
  dropout_inactive self ->
  Qlt_bool (coin w) ratio = true ->
  Qlt_bool (coin w) ratio' = false ->
  forward self inputs lh enc f ratio false w = (Ok (y_hats, Some logit), w1) ->
  forward self inputs lh enc f ratio' false w =
  (Ok (y_hats', Some logit'), w1') ->
  b < size0 inputs ->
  nth 0 (nth b logit []) [] = nth 0 (nth b logit' []) [].
Proof.
  intros Hdet Hcoin Hcoin' Hf Hf' Hb.
  destruct (free_running_logit_rows _ _ _ _ _ _ _ _ _ _ _ Hdet Hcoin' Hf' Hb)
    as [HL [_ ->]].
  apply (teacher_forced_logit _ _ _ _ _ _ _ _ _ _ Hcoin) in Hf.
  destruct (_forward_step_rows_inv _ _ _ _ _ _ _ _ Hdet Hf) as [_ ->].
  cbn [size0 size1 item drop_last_column].
  rewrite nth_map_seq by exact Hb.
  destruct (size1 inputs) as [|[|L]]; try lia.
  reflexivity.
Qed.

Lemma forward_logit_dists self inputs lh enc f ratio w y_hats logit w' :
  forward self inputs lh enc f ratio false w = (Ok (y_hats, Some logit), w') ->
  Forall (Forall (fun d => exists x, d = f (Linear_forward (out self) x)))
    logit.
Proof.
  intros Hf. destruct (Qlt_bool (coin w) ratio) eqn:Hcoin.
  - apply (teacher_forced_logit _ _ _ _ _ _ _ _ _ _ Hcoin) in Hf.
    eapply _forward_step_dists; eauto.
  - destruct (forward_non_beam_inv _ _ _ _ _ _ _ _ _ _ Hf)
      as [dr [logit' [Hdec [Heq [Hstack _]]]]].
    inversion Heq; subst logit'. clear Heq.
    rewrite Hcoin in Hdec. unfold decode_branch, free_running_decode in Hdec.
    unfold bind at 1 in Hdec. unfold lift at 1 in Hdec.
    destruct (first_column inputs) as [input|e] eqn:Hin; try discriminate.
    assert (Hs1 : size1 input = 1).
    { unfold first_column in Hin.
      destruct (size1 inputs =? 0); try discriminate.
      inversion Hin; subst. reflexivity. }
    destruct (free_running_loop_chain _ _ _ _ _ _ _ _ _ _ Hdec)
      as [rest [-> [_ Hchain]]]. simpl in Hstack.
    pose proof (greedy_chain_steps _ _ _ _ _ _ _ _ Hchain Hs1) as Hsteps.
    destruct (stack_steps rest (size0 input) _
                ltac:(intros ->; discriminate) Hsteps)
      as [logit0 [Hs [_ Hd]]].
    congruence.
Qed.

(** X6.  A non-beam decode call of a decoder that [__init__] has built,
    with a [function] that keeps the length of its argument, returns only
    token ids below [vocab_size], the number of rows of the embedding they
    are fed back to. *)
Theorem predictions_in_vocabulary
  theta vocab maxlen hsize sos eos layers kind p att width self
  inputs lh enc f ratio w y_hats logit_opt w' :
  __init__ theta vocab maxlen hsize sos eos layers kind p att width = Ok self ->
  (forall l, length (f l) = length l) ->
  forward self inputs lh enc f ratio false w = (Ok (y_hats, logit_opt), w') ->
  Forall (Forall (fun tok => tok < vocab)) y_hats /\
  num_embeddings (embedding self) = vocab.
Proof.
  intros Hinit Hf Hfw.
  assert (Hout : out_features (out self) = vocab /\
                 num_embeddings (embedding self) = vocab).
  { unfold __init__ in Hinit. destruct (negb _); try discriminate.
    destruct (_ || _); try discriminate.
    inversion Hinit; subst. simpl. auto. }
  destruct Hout as [Hout Hemb]. split; auto.
  destruct (forward_non_beam_inv _ _ _ _ _ _ _ _ _ _ Hfw)
    as [dr [logit [_ [-> [_ Hmax]]]]].
  pose proof (forward_logit_dists _ _ _ _ _ _ _ _ _ _ Hfw) as Hd.
  unfold max_last in Hmax. apply result_map_Forall2 in Hmax.
  clear Hfw. induction Hmax as [|r ys logit y_hats Hr Hmax IH];
    constructor.
  - inversion Hd as [|? ? Hdr _]; subst.
    apply result_map_Forall2 in Hr. clear IH Hmax Hd.
    induction Hr as [|d i r ys Hi Hr IH]; constructor.
    + inversion Hdr as [|? ? [x ->] _]; subst.
      destruct (max_index_spec _ _ Hi) as [v [Hn _]].
      assert (Hlt : i < length (f (Linear_forward (out self) x)))
        by (apply nth_error_Some; congruence).
      rewrite Hf in Hlt. unfold Linear_forward in Hlt.
      rewrite length_map, length_seq in Hlt. lia.
    + apply IH. now inversion Hdr.
  - apply IH. now inversion Hd.
Qed.

(** X4.  The state tensor a decode call draws has one slice per batch
    element, [layer_size] vectors per slice and [hidden_size] numbers per
    vector, all of them within [-0.1, 0.1] when the generator yields numbers
    of the unit interval. *)
Theorem initial_state_shape_and_range self inputs w :
  (forall n, (0 <= tape (torch_random w) n <= 1)%Q) ->
  length (drawn_hidden self inputs w) = size0 inputs /\
  Forall (fun slice =>
            length slice = layer_size self /\
            Forall (fun v =>
                      length v = hidden_size self /\
                      Forall (fun x => (-0.1 <= x <= 0.1)%Q) v) slice)
    (drawn_hidden self inputs w).
Proof.
  intros Ht. split; [apply drawn_hidden_length|].
  pose proof (drawn_hidden_range self inputs w Ht) as Hr.
  unfold drawn_hidden, uniform_ in *. cbv zeta in *.
  apply Forall_forall. intros s Hs.
  rewrite Forall_forall in Hr. specialize (Hr s Hs).
  apply in_map_iff in Hs. destruct Hs as [b [<- _]]. split.
  - now rewrite length_map, length_seq.
  - apply Forall_forall. intros v Hv.
    rewrite Forall_forall in Hr. specialize (Hr v Hv).
    apply in_map_iff in Hv. destruct Hv as [l [<- _]]. split; auto.
    now rewrite length_map, length_seq.
Qed.

End Decoder.

(** ** The claims at concrete inputs *)

Lemma example_decoder_built :
  __init__ theta0 3 5 2 0 1 1 "GRU" 0 false 1 =
  Ok (example_decoder GRU 5 1 false).
Proof. reflexivity. Qed.

Lemma example_decoder4_built :
  __init__ theta1 4 5 2 0 3 1 "gru" 0 false 1 = Ok example_decoder4.
Proof. reflexivity. Qed.

(** The constructor at concrete arguments: the kind is compared without
    regard to case and checked before the hyper-parameters. *)
Lemma constructor_examples :
  (exists self,
     __init__ theta0 3 5 2 0 1 1 "Lstm" 0 false 1 = Ok self /\
     rnn_cell self = LSTM) /\
  (exists self,
     __init__ theta0 3 5 2 0 1 1 "rNN" 1 true 1 = Ok self /\
     rnn_cell self = RNN) /\
  __init__ theta0 3 5 2 0 1 1 "gnu" 0 false 1 = Err AssertionError /\
  __init__ theta0 3 5 2 0 1 1 "gru " 0 false 1 = Err AssertionError /\
  __init__ theta0 3 5 2 0 1 0 "gnu" 2 false 1 = Err AssertionError /\
  __init__ theta0 3 5 2 0 1 0 "gru" 0 false 1 = Err ValueError /\
  __init__ theta0 3 5 0 0 1 1 "gru" 0 false 1 = Err ValueError /\
  __init__ theta0 3 5 2 0 1 1 "gru" 2 false 1 = Err ValueError.
Proof.
  repeat split; try reflexivity.
  - eexists. split; reflexivity.
  - eexists. split; reflexivity.
Qed.

Lemma free_running_runs_every_step_witness :
  mode (rnn (example_decoder GRU 5 1 false)) <> LSTM /\
  state_attributes_agree (example_decoder GRU 5 1 false) /\
  (forall b, b < size0 targets3 ->
     item targets3 b 0 < num_embeddings (embedding (example_decoder GRU 5 1 false))) /\
  scores_vocabulary (example_decoder GRU 5 1 false) raw_scores /\
  predictions_in_range (example_decoder GRU 5 1 false) raw_scores /\
  attention_ready (example_decoder GRU 5 1 false)
    (example_listener_outputs 2) (size0 targets3) = true /\
  1 <= size0 targets3 /\ 2 <= size1 targets3 /\
  Qlt_bool (coin example_world) 0 = false /\
  (exists input decode_results logit y_hats w',
     first_column targets3 = Ok input /\
     greedy_chain example_exp (example_decoder GRU 5 1 false)
       (drawn_hidden (example_decoder GRU 5 1 false) targets3 example_world)
       (example_listener_outputs 2) raw_scores input
       (world_after_draws (example_decoder GRU 5 1 false) targets3
          example_world) decode_results w' /\
     length decode_results = size1 targets3 - 1 /\
     stack_dim1 decode_results = Ok logit /\
     shape (size0 targets3) (size1 targets3 - 1) logit /\
     forward example_exp (example_decoder GRU 5 1 false) targets3 []
       (example_listener_outputs 2) raw_scores 0 false example_world =
     (Ok (y_hats, Some logit), w')) /\
  (forall maxlen eos,
     forward example_exp
       (with_limits maxlen eos (example_decoder GRU 5 1 false)) targets3 []
       (example_listener_outputs 2) raw_scores 0 false example_world =
     forward example_exp (example_decoder GRU 5 1 false) targets3 []
       (example_listener_outputs 2) raw_scores 0 false example_world).
Proof.
  assert (H1 : mode (rnn (example_decoder GRU 5 1 false)) <> LSTM)
    by (simpl; discriminate).
  assert (H2 : state_attributes_agree (example_decoder GRU 5 1 false))
    by (split; reflexivity).
  assert (H3 : forall b, b < size0 targets3 ->
                 item targets3 b 0
                 < num_embeddings (embedding (example_decoder GRU 5 1 false)))
    by (intros b _; simpl; lia).
  assert (H4 : scores_vocabulary (example_decoder GRU 5 1 false) raw_scores)
    by (intros x; simpl; discriminate).
  assert (H5 : predictions_in_range (example_decoder GRU 5 1 false) raw_scores)
    by (intros x; simpl; lia).
  assert (H6 : 1 <= size0 targets3) by (simpl; lia).
  assert (H7 : 2 <= size1 targets3) by (simpl; lia).
  repeat (split; [first [assumption | reflexivity]|]).
  apply (free_running_runs_every_step example_exp
           (example_decoder GRU 5 1 false) targets3 []
           (example_listener_outputs 2) raw_scores 0 example_world);
    first [assumption | reflexivity].
Defined.

(** C1, as stated, fails: in free-running mode a decoder built with
    [max_len = 5] returns two distributions for a target of three tokens,
    which is neither [self.max_len - 1 = 4] nor one less than the local
    [max_len = 2] of [forward]; and a decoder built with [max_len = 1]
    raises on a target of one token instead of returning zero
    distributions. *)
Lemma free_running_steps_counterexample :
  Qlt_bool (coin example_world) 0 = false /\
  max_len (example_decoder GRU 5 1 false) - 1 = 4 /\
  Z.to_nat (Z.of_nat (size1 targets3) - 1) - 1 = 1 /\
  (exists y_hats logit w',
     forward example_exp (example_decoder GRU 5 1 false) targets3 []
       (example_listener_outputs 2) raw_scores 0 false example_world =
     (Ok (y_hats, Some logit), w') /\
     shape 1 2 logit /\
     ~ shape 1 (max_len (example_decoder GRU 5 1 false) - 1) logit /\
     ~ shape 1 (Z.to_nat (Z.of_nat (size1 targets3) - 1) - 1) logit) /\
  max_len (example_decoder GRU 1 1 false) - 1 = 0 /\
  size1 targets1 - 1 = 0 /\
  fst (forward example_exp (example_decoder GRU 1 1 false) targets1 []
         (example_listener_outputs 2) raw_scores 0 false example_world) =
  Err RuntimeError.
Proof.
  split; [reflexivity|]. split; [reflexivity|]. split; [reflexivity|]. split.
  - eexists _, _, _. split; [vm_compute; reflexivity|]. split; [|split].
    + split; [reflexivity|]. repeat constructor.
    + intros [_ H]. inversion H as [|? ? Hr _]. simpl in Hr. discriminate.
    + intros [_ H]. inversion H as [|? ? Hr _]. simpl in Hr. discriminate.
  - repeat split; reflexivity.
Qed.

Lemma teacher_forced_returns_all_but_last_witness :
  mode (rnn (example_decoder GRU 5 1 false)) <> LSTM /\
  state_attributes_agree (example_decoder GRU 5 1 false) /\
  indices_in_range (embedding (example_decoder GRU 5 1 false))
    (drop_last_column targets3) = true /\
  scores_vocabulary (example_decoder GRU 5 1 false) raw_scores /\
  attention_ready (example_decoder GRU 5 1 false)
    (example_listener_outputs 2) (size0 targets3) = true /\
  1 <= size0 targets3 /\ 2 <= size1 targets3 /\
  Qlt_bool (coin example_world) 1 = true /\
  exists predicted_softmax y_hats w',
    _forward_step example_exp (example_decoder GRU 5 1 false)
      (drop_last_column targets3)
      (drawn_hidden (example_decoder GRU 5 1 false) targets3 example_world)
      (example_listener_outputs 2) raw_scores
      (world_after_draws (example_decoder GRU 5 1 false) targets3
         example_world) = (Ok predicted_softmax, w') /\
    rows (drop_last_column targets3) = map (@removelast nat) (rows targets3) /\
    shape (size0 targets3) (size1 targets3 - 1) predicted_softmax /\
    forward example_exp (example_decoder GRU 5 1 false) targets3 []
      (example_listener_outputs 2) raw_scores 1 false example_world =
    (Ok (y_hats, Some predicted_softmax), w').
Proof.
  assert (H1 : mode (rnn (example_decoder GRU 5 1 false)) <> LSTM)
    by (simpl; discriminate).
  assert (H2 : state_attributes_agree (example_decoder GRU 5 1 false))
    by (split; reflexivity).
  assert (H3 : scores_vocabulary (example_decoder GRU 5 1 false) raw_scores)
    by (intros x; simpl; discriminate).
  assert (H4 : 1 <= size0 targets3) by (simpl; lia).
  assert (H5 : 2 <= size1 targets3) by (simpl; lia).
  repeat (split; [first [assumption | reflexivity]|]).
  apply (teacher_forced_returns_all_but_last example_exp
           (example_decoder GRU 5 1 false) targets3 []
           (example_listener_outputs 2) raw_scores 1 example_world);
    first [assumption | reflexivity].
Defined.

(** C2, as stated, fails: a teacher-forced call on a target of one token
    raises instead of returning zero distributions. *)
Lemma teacher_forced_single_token_counterexample :
  size1 targets1 - 1 = 0 /\
  Qlt_bool (coin example_world) 1 = true /\
  fst (forward example_exp (example_decoder GRU 5 1 false) targets1 []
         (example_listener_outputs 2) raw_scores 1 false example_world) =
  Err RuntimeError.
Proof. repeat split; reflexivity. Qed.




Lemma empty_encoder_is_rejected_witness :
  dim1 (example_listener_outputs 0) = 0 /\
  (forall a decoder_output,
     Attention_forward example_exp a decoder_output
       (example_listener_outputs 0) = Err InputError) /\
  (forall self input hidden f w,
     use_attention self = true ->
     exists e w',
       _forward_step example_exp self input hidden
         (example_listener_outputs 0) f w = (Err e, w') /\
       (indices_in_range (embedding self) input = true ->
        mode (rnn self) <> LSTM ->
        state_fits (rnn self) (size0 input) hidden = true ->
        0 < size1 input ->
        attention self <> None -> e = InputError)).
Proof.
  split; [reflexivity|].
  apply (empty_encoder_is_rejected example_exp (example_listener_outputs 0)).
  reflexivity.
Defined.

Lemma no_attention_projects_raw_output_witness :
  use_attention (example_decoder GRU 5 1 false) = false /\
  indices_in_range (embedding (example_decoder GRU 5 1 false))
    (drop_last_column targets3) = true /\
  mode (rnn (example_decoder GRU 5 1 false)) <> LSTM /\
  state_fits (rnn (example_decoder GRU 5 1 false))
    (size0 (drop_last_column targets3)) [[[0%Q; 0%Q]]] = true /\
  exists predicted_softmax w',
    _forward_step example_exp (example_decoder GRU 5 1 false)
      (drop_last_column targets3) [[[0%Q; 0%Q]]]
      (example_listener_outputs 0) raw_scores example_world =
    (Ok predicted_softmax, w').
Proof.
  assert (H : mode (rnn (example_decoder GRU 5 1 false)) <> LSTM)
    by (simpl; discriminate).
  split; [reflexivity|]. split; [reflexivity|]. split; [exact H|].
  split; [reflexivity|].
  apply (no_attention_projects_raw_output example_exp
           (example_decoder GRU 5 1 false) (drop_last_column targets3)
           [[[0%Q; 0%Q]]] (example_listener_outputs 0) raw_scores
           example_world);
    first [reflexivity | exact H | simpl; lia].
Defined.

Lemma y_hats_are_argmax_of_logit_witness :
  exists y_hats logit_opt w',
    forward example_exp (example_decoder GRU 5 1 false) targets3 []
      (example_listener_outputs 2) raw_scores 1 false example_world =
    (Ok (y_hats, logit_opt), w') /\
    exists logit,
      logit_opt = Some logit /\
      max_last logit = Ok y_hats /\
      Forall2 (Forall2 first_max) logit y_hats.
Proof.
  eexists _, _, _. split; [vm_compute; reflexivity|].
  eapply (y_hats_are_argmax_of_logit example_exp
            (example_decoder GRU 5 1 false) targets3 []
            (example_listener_outputs 2) raw_scores 1 example_world).
  vm_compute. reflexivity.
Defined.

(** ** The character-distance scorer *)

Lemma Lev_nil_l t : Lev_distance [] t = length t.
Proof. destruct t; reflexivity. Qed.

Lemma Lev_nil_r s : Lev_distance s [] = length s.
Proof. destruct s; reflexivity. Qed.

Lemma Lev_cons a s b t :
  Lev_distance (a :: s) (b :: t) =
  if N.eqb a b then Lev_distance s t
  else S (min3 (Lev_distance s (b :: t)) (Lev_distance (a :: s) t)
            (Lev_distance s t)).
Proof. reflexivity. Qed.

Lemma Lev_sym s : forall t, Lev_distance s t = Lev_distance t s.
Proof.
  induction s as [|a s IHs]; intros t.
  - now rewrite Lev_nil_l, Lev_nil_r.
  - induction t as [|b t IHt].
    + now rewrite Lev_nil_l, Lev_nil_r.
    + rewrite !Lev_cons, (N.eqb_sym b a), IHt, (IHs (b :: t)), (IHs t).
      destruct (N.eqb a b); auto. unfold min3. f_equal. lia.
Qed.

(** Removing the first character of either string changes the distance by
    at most one. *)
Lemma Lev_step m : forall s t,
  length s + length t <= m ->
  (forall a, Lev_distance (a :: s) t <= S (Lev_distance s t)) /\
  (forall b, Lev_distance s t <= S (Lev_distance s (b :: t))).
Proof.
  induction m as [|m IH]; intros s t Hm.
  - destruct s, t; simpl in Hm; try lia. split; intros; simpl; lia.
  - split.
    + intros a. destruct t as [|b t].
      * rewrite !Lev_nil_r. simpl. lia.
      * rewrite Lev_cons. destruct (N.eqb a b).
        -- apply (IH s t). simpl in Hm. lia.
        -- unfold min3. lia.
    + intros b. destruct s as [|a s].
      * rewrite !Lev_nil_l. simpl. lia.
      * rewrite (Lev_cons a s b t).
        assert (Hs : length s + length t <= m) by (simpl in Hm; lia).
        destruct (IH s t Hs) as [H1 H4].
        specialize (H1 a). specialize (H4 b).
        destruct (N.eqb a b); [exact H1|]. unfold min3. lia.
Qed.

Lemma Lev_delete a s t : Lev_distance (a :: s) t <= S (Lev_distance s t).
Proof. now apply (Lev_step (length s + length t) s t). Qed.

Lemma Lev_insert b s t : Lev_distance s (b :: t) <= S (Lev_distance s t).
Proof. rewrite (Lev_sym s (b :: t)), (Lev_sym s t). apply Lev_delete. Qed.

Lemma Lev_reached s : forall t, edits s t (Lev_distance s t).
Proof.
  induction s as [|a s IHs]; intros t.
  - rewrite Lev_nil_l. induction t; simpl; constructor; auto.
  - induction t as [|b t IHt].
    + rewrite Lev_nil_r. simpl. apply edits_delete.
      specialize (IHs []). now rewrite Lev_nil_r in IHs.
    + rewrite Lev_cons. destruct (N.eqb_spec a b) as [->|Hab].
      * apply edits_keep, IHs.
      * unfold min3.
        destruct (Nat.min_spec (Lev_distance s (b :: t))
                    (Nat.min (Lev_distance (a :: s) t) (Lev_distance s t)))
          as [[_ ->]|[_ ->]].
        -- apply edits_delete, IHs.
        -- destruct (Nat.min_spec (Lev_distance (a :: s) t)
                       (Lev_distance s t)) as [[_ ->]|[_ ->]].
           ++ apply edits_insert, IHt.
           ++ apply edits_substitute, IHs.
Qed.

Lemma Lev_least s t n : edits s t n -> Lev_distance s t <= n.
Proof.
  induction 1 as [|a s t n _ IH|a b s t n _ IH|a s t n _ IH|b s t n _ IH].
  - simpl. lia.
  - now rewrite Lev_cons, N.eqb_refl.
  - rewrite Lev_cons. destruct (N.eqb a b); [lia|]. unfold min3. lia.
  - pose proof (Lev_delete a s t). lia.
  - pose proof (Lev_insert b s t). lia.
Qed.

Lemma remove_spaces_idempotent s :
  remove_spaces (remove_spaces s) = remove_spaces s.
Proof.
  unfold remove_spaces. induction s as [|c s IH]; simpl; auto.
  destruct (negb (N.eqb c space)) eqn:E; simpl; auto.
  now rewrite E, IH.
Qed.

Lemma char_distance_spec target y_hat :
  char_distance target y_hat =
  (Lev_distance (remove_spaces target) (remove_spaces y_hat),
   length (remove_spaces target)).
Proof.
  unfold char_distance. now rewrite remove_spaces_idempotent, Lev_sym.
Qed.

Lemma get_distance_loop_sums id2char eos targets : forall y_hats d l,
  length y_hats = length targets ->
  get_distance_loop targets y_hats id2char eos d l =
  Ok (d + list_sum
            (map (fun p =>
                    fst (char_distance
                           (label_to_string (fst p) id2char eos)
                           (label_to_string (snd p) id2char eos)))
               (combine targets y_hats)),
      l + list_sum
            (map (fun p =>
                    snd (char_distance
                           (label_to_string (fst p) id2char eos)
                           (label_to_string (snd p) id2char eos)))
               (combine targets y_hats))).
Proof.
  induction targets as [|t targets IH]; intros y_hats d l Hlen.
  - simpl. now rewrite !Nat.add_0_r.
  - destruct y_hats as [|y y_hats]; [discriminate|].
    cbn [get_distance_loop combine map list_sum fst snd].
    destruct (char_distance _ _) as [distance length_] eqn:E.
    rewrite IH by (simpl in Hlen; lia). cbn [fst snd list_sum fold_right].
    change (fold_right Nat.add 0) with list_sum.
    now rewrite !Nat.add_assoc.
Qed.

Lemma before_eos_app eos labels rest :
  ~ In eos labels -> before_eos eos (labels ++ eos :: rest) = labels.
Proof.
  induction labels as [|x labels IH]; intros Hn; simpl.
  - now rewrite Nat.eqb_refl.
  - destruct (x =? eos) eqn:E.
    + apply Nat.eqb_eq in E. subst. exfalso. apply Hn. now left.
    + rewrite IH; auto. intros H. apply Hn. now right.
Qed.

(** C9.  [char_distance] returns the least number of single-character
    edits between its two arguments without their spaces, and the length of
    the target without its spaces; for a batch of as many predictions as
    targets [get_distance] returns the sums of the two over the batch,
    each id sequence converted to the string of its labels before the first
    [eos_id]. *)
Theorem scorer_sums_spaceless_edit_distances
  (targets y_hats : list (list nat)) (id2char : nat -> str) (eos : nat) :
  length y_hats = length targets ->
  (forall target y_hat,
     edits (remove_spaces target) (remove_spaces y_hat)
       (fst (char_distance target y_hat)) /\
     (forall n, edits (remove_spaces target) (remove_spaces y_hat) n ->
                fst (char_distance target y_hat) <= n) /\
     snd (char_distance target y_hat) = length (remove_spaces target)) /\
  get_distance targets y_hats id2char eos =
  Ok (list_sum
        (map (fun p =>
                fst (char_distance
                       (label_to_string (fst p) id2char eos)
                       (label_to_string (snd p) id2char eos)))
           (combine targets y_hats)),
      list_sum
        (map (fun p =>
                snd (char_distance
                       (label_to_string (fst p) id2char eos)
                       (label_to_string (snd p) id2char eos)))
           (combine targets y_hats))) /\
  (forall labels rest,
     ~ In eos labels ->
     label_to_string (labels ++ eos :: rest) id2char eos =
     concat (map id2char labels)).
Proof.
  intros Hlen. split; [|split].
  - intros target y_hat. rewrite char_distance_spec. simpl.
    repeat split.
    + apply Lev_reached.
    + apply Lev_least.
  - unfold get_distance. now rewrite get_distance_loop_sums.
  - intros labels rest Hn. unfold label_to_string.
    now rewrite before_eos_app.
Qed.

Lemma scorer_sums_spaceless_edit_distances_witness :
  length [[1; 2; 0; 9]; [2]] = length [[1; 3; 2; 0]; [3; 3]] /\
  get_distance [[1; 3; 2; 0]; [3; 3]] [[1; 2; 0; 9]; [2]]
    (fun i => if i =? 3 then [space] else [N.of_nat (65 + i)]) 0 =
  Ok (1, 2).
Proof.
  split; [reflexivity|].
  destruct (scorer_sums_spaceless_edit_distances
              [[1; 3; 2; 0]; [3; 3]] [[1; 2; 0; 9]; [2]]
              (fun i => if i =? 3 then [space] else [N.of_nat (65 + i)]) 0
              eq_refl) as [_ [H _]].
  exact H.
Defined.

(** ** The further properties at concrete inputs *)

Lemma forward_short_target_raises_witness :
  size1 targets1 <= 1 /\
  exists e w',
    forward example_exp (example_decoder GRU 5 1 false) targets1 []
      (example_listener_outputs 2) raw_scores 0 false example_world =
    (Err e, w').
Proof.
  assert (H : size1 targets1 <= 1) by (simpl; lia).
  split; [exact H|].
  apply (forward_short_target_raises example_exp
           (example_decoder GRU 5 1 false) targets1 []
           (example_listener_outputs 2) raw_scores 0 example_world H).
Defined.

Lemma forward_empty_batch_raises_witness :
  size0 (of_rows 0 3 []) = 0 /\
  exists e w',
    forward example_exp (example_decoder GRU 5 1 false) (of_rows 0 3 []) []
      (example_listener_outputs 2) raw_scores 0 false example_world =
    (Err e, w').
Proof.
  split; [reflexivity|].
  apply (forward_empty_batch_raises example_exp
           (example_decoder GRU 5 1 false) (of_rows 0 3 []) []
           (example_listener_outputs 2) raw_scores 0 example_world eq_refl).
Defined.

Lemma lstm_decode_raises_witness :
  mode (rnn (example_decoder LSTM 5 1 false)) = LSTM /\
  exists e w',
    forward example_exp (example_decoder LSTM 5 1 false) targets3 []
      (example_listener_outputs 2) raw_scores 1 false example_world =
    (Err e, w').
Proof.
  split; [reflexivity|].
  apply (lstm_decode_raises example_exp
           (example_decoder LSTM 5 1 false) targets3 []
           (example_listener_outputs 2) raw_scores 1 example_world eq_refl).
Defined.

Lemma example_world_unit_interval n :
  (0 <= tape (torch_random example_world) n <= 1)%Q.
Proof. simpl. split; discriminate. Qed.

Lemma initial_state_shape_and_range_witness :
  (forall n, (0 <= tape (torch_random example_world) n <= 1)%Q) /\
  length (drawn_hidden (example_decoder GRU 5 1 false) two_targets
            example_world) = size0 two_targets /\
  Forall (fun slice =>
            length slice = layer_size (example_decoder GRU 5 1 false) /\
            Forall (fun v =>
                      length v = hidden_size (example_decoder GRU 5 1 false) /\
                      Forall (fun x => (-0.1 <= x <= 0.1)%Q) v) slice)
    (drawn_hidden (example_decoder GRU 5 1 false) two_targets example_world).
Proof.
  split; [exact example_world_unit_interval|].
  apply (initial_state_shape_and_range (example_decoder GRU 5 1 false)
           two_targets example_world example_world_unit_interval).
Defined.

Lemma generators_after_decode_witness :
  dropout_inactive (example_decoder GRU 5 1 false) /\
  py_random
    (snd (forward example_exp (example_decoder GRU 5 1 false) two_targets []
            (example_listener_outputs 2) raw_scores 0 false example_world)) =
  advance 1 (py_random example_world) /\
  torch_random
    (snd (forward example_exp (example_decoder GRU 5 1 false) two_targets []
            (example_listener_outputs 2) raw_scores 0 false example_world)) =
  advance 4 (torch_random example_world).
Proof.
  split; [reflexivity|].
  apply (generators_after_decode example_exp (example_decoder GRU 5 1 false)
           two_targets [] (example_listener_outputs 2) raw_scores 0
           example_world eq_refl).
Defined.

Lemma predictions_in_vocabulary_witness :
  __init__ theta0 3 5 2 0 1 1 "GRU" 0 false 1 =
  Ok (example_decoder GRU 5 1 false) /\
  (forall l, length (raw_scores l) = length l) /\
  exists y_hats logit_opt w',
    forward example_exp (example_decoder GRU 5 1 false) two_targets []
      (example_listener_outputs 2) raw_scores 0 false example_world =
    (Ok (y_hats, logit_opt), w') /\
    Forall (Forall (fun tok => tok < 3)) y_hats /\
    num_embeddings (embedding (example_decoder GRU 5 1 false)) = 3.
Proof.
  split; [reflexivity|]. split; [reflexivity|].
  eexists _, _, _. split; [vm_compute; reflexivity|].
  eapply (predictions_in_vocabulary example_exp theta0 3 5 2 0 1 1 "GRU" 0
            false 1 (example_decoder GRU 5 1 false) two_targets []
            (example_listener_outputs 2) raw_scores 0 example_world
            _ _ _ eq_refl (fun l => eq_refl) eq_refl).
Defined.

Lemma free_running_restarts_from_initial_state_witness :
  dropout_inactive (example_decoder GRU 5 1 false) /\
  Qlt_bool (coin example_world) 0 = false /\
  0 < size0 targets5 /\
  exists y_hats logit w',
    forward example_exp (example_decoder GRU 5 1 false) targets5 []
      (example_listener_outputs 2) raw_scores 0 false example_world =
    (Ok (y_hats, Some logit), w') /\
    nth 0 logit [] =
    map (row_dist example_exp (example_decoder GRU 5 1 false) raw_scores
           (nth 0 (drawn_hidden (example_decoder GRU 5 1 false) targets5
                     example_world) [])
           (encoder_row (example_listener_outputs 2) 0))
      (firstn (size1 targets5 - 1) (item targets5 0 0 :: nth 0 y_hats [])).
Proof.
  assert (H0 : 0 < size0 targets5) by (simpl; lia).
  split; [reflexivity|]. split; [reflexivity|]. split; [exact H0|].
  eexists _, _, _. split; [vm_compute; reflexivity|].
  eapply (proj1 (free_running_restarts_from_initial_state example_exp
            (example_decoder GRU 5 1 false) targets5 []
            (example_listener_outputs 2) raw_scores 0 example_world
            _ _ _ 0 eq_refl eq_refl eq_refl H0)).
Defined.

Lemma first_step_is_shared_witness :
  dropout_inactive (example_decoder GRU 5 1 false) /\
  Qlt_bool (coin example_world) 1 = true /\
  Qlt_bool (coin example_world) 0 = false /\
  0 < size0 targets3 /\
  exists y_hats logit w1 y_hats' logit' w1',
    forward example_exp (example_decoder GRU 5 1 false) targets3 []
      (example_listener_outputs 2) raw_scores 1 false example_world =
    (Ok (y_hats, Some logit), w1) /\
    forward example_exp (example_decoder GRU 5 1 false) targets3 []
      (example_listener_outputs 2) raw_scores 0 false example_world =
    (Ok (y_hats', Some logit'), w1') /\
    nth 0 (nth 0 logit []) [] = nth 0 (nth 0 logit' []) [].
Proof.
  assert (H0 : 0 < size0 targets3) by (simpl; lia).
  split; [reflexivity|]. split; [reflexivity|]. split; [reflexivity|].
  split; [exact H0|].
  eexists _, _, _, _, _, _.
  split; [vm_compute; reflexivity|]. split; [vm_compute; reflexivity|].
  eapply (first_step_is_shared example_exp (example_decoder GRU 5 1 false)
            targets3 [] (example_listener_outputs 2) raw_scores 1 0
            example_world _ _ _ _ _ _ 0 eq_refl eq_refl eq_refl eq_refl
            eq_refl H0).
Defined.

Lemma step_batch_independent_witness :
  dropout_inactive (example_decoder GRU 5 1 false) /\
  1 < size0 two_targets /\
  exists ps w',
    _forward_step example_exp (example_decoder GRU 5 1 false) two_targets
      [[[0%Q; 0%Q]]; [[1%Q; 0%Q]]] (example_listener_outputs 2) raw_scores
      example_world = (Ok ps, w') /\
    _forward_step example_exp (example_decoder GRU 5 1 false)
      (row_tensor two_targets 1) [[[1%Q; 0%Q]]]
      (encoder_slice (example_listener_outputs 2) 1) raw_scores example_world =
    (Ok [nth 1 ps []], example_world).
Proof.
  assert (H1 : 1 < size0 two_targets) by (simpl; lia).
  split; [reflexivity|]. split; [exact H1|].
  eexists _, _. split; [vm_compute; reflexivity|].
  eapply (step_batch_independent example_exp (example_decoder GRU 5 1 false)
            two_targets [[[0%Q; 0%Q]]; [[1%Q; 0%Q]]]
            (example_listener_outputs 2) raw_scores example_world _ _ 1
            eq_refl eq_refl H1).
Defined.

Lemma teacher_forcing_is_causal_witness :
  dropout_inactive (example_decoder GRU 5 1 false) /\
  Qlt_bool (coin example_world) 1 = true /\
  size0 targets3_other_end = size0 targets3 /\
  size1 targets3_other_end = size1 targets3 /\
  (forall b j, j < 2 -> item targets3_other_end b j = item targets3 b j) /\
  exists y_hats logit w1 y_hats' logit' w1',
    forward example_exp (example_decoder GRU 5 1 false) targets3 []
      (example_listener_outputs 2) raw_scores 1 false example_world =
    (Ok (y_hats, Some logit), w1) /\
    forward example_exp (example_decoder GRU 5 1 false) targets3_other_end []
      (example_listener_outputs 2) raw_scores 1 false example_world =
    (Ok (y_hats', Some logit'), w1') /\
    forall b, firstn 2 (nth b logit []) = firstn 2 (nth b logit' []).
Proof.
  assert (Hagree : forall b j, j < 2 ->
                     item targets3_other_end b j = item targets3 b j).
  { intros b [|[|j]] Hj; try reflexivity. lia. }
  split; [reflexivity|]. split; [reflexivity|]. split; [reflexivity|].
  split; [reflexivity|]. split; [exact Hagree|].
  eexists _, _, _, _, _, _.
  split; [vm_compute; reflexivity|]. split; [vm_compute; reflexivity|].
  eapply (teacher_forcing_is_causal example_exp
            (example_decoder GRU 5 1 false) targets3 targets3_other_end []
            (example_listener_outputs 2) raw_scores 1 example_world
            _ _ _ _ _ _ 2 eq_refl eq_refl eq_refl eq_refl Hagree eq_refl
            eq_refl).
Defined.

Lemma built_decoder_step_errors_witness :
  __init__ theta0 3 5 2 0 1 1 "rnn" 0 true 1 =
  Ok (example_decoder RNN 5 1 true) /\
  match fst (_forward_step example_exp (example_decoder RNN 5 1 true)
               targets3 [[[0%Q; 0%Q]]] (example_listener_outputs 0)
               raw_scores example_world) with
  | Ok _ => True
  | Err e =>
      (e = IndexError /\
       (indices_in_range (embedding (example_decoder RNN 5 1 true)) targets3
        = false \/
        rnn_cell (example_decoder RNN 5 1 true) = LSTM)) \/
      e = RuntimeError \/
      (e = InputError /\ true = true)
  end.
Proof.
  split; [reflexivity|].
  apply (built_decoder_step_errors example_exp theta0 3 5 2 0 1 1 "rnn" 0
           true 1 (example_decoder RNN 5 1 true) targets3 [[[0%Q; 0%Q]]]
           (example_listener_outputs 0) raw_scores example_world eq_refl).
Defined.

(** ** Further properties of the scorer *)

Lemma Lev_refl s : Lev_distance s s = 0.
Proof.
  induction s as [|a s IH]; [reflexivity|].
  now rewrite Lev_cons, N.eqb_refl.
Qed.

Lemma Lev_zero s : forall t, Lev_distance s t = 0 -> s = t.
Proof.
  induction s as [|a s IH]; intros t H.
  - rewrite Lev_nil_l in H. now destruct t.
  - destruct t as [|b t]; [discriminate|].
    rewrite Lev_cons in H. destruct (N.eqb_spec a b) as [->|Hab].
    + f_equal. now apply IH.
    + discriminate.
Qed.

Lemma edits_lengths s t n :
  edits s t n -> length s <= length t + n /\ length t <= length s + n.
Proof. induction 1; simpl; lia. Qed.

Lemma Lev_upper s : forall t,
  Lev_distance s t <= Nat.max (length s) (length t).
Proof.
  induction s as [|a s IHs]; intros t.
  - rewrite Lev_nil_l. simpl. lia.
  - destruct t as [|b t].
    + rewrite Lev_nil_r. lia.
    + rewrite Lev_cons. specialize (IHs t).
      destruct (N.eqb a b); simpl; unfold min3; lia.
Qed.

Lemma edits_compose s t n :
  edits s t n ->
  forall u m, edits t u m -> exists k, k <= n + m /\ edits s u k.
Proof.
  induction 1 as [|a s t n _ IH|a b s t n _ IH|a s t n _ IH|b s t n _ IH];
    intros u m H2.
  - exists m. split; [lia|exact H2].
  - remember (a :: t) as t0 eqn:Et. revert Et.
    induction H2 as [|c t1 u m H2 _|c d t1 u m H2 _|c t1 u m H2 _
                     |d t1 u m H2 IH2]; intros Et; try discriminate.
    + inversion Et; subst. destruct (IH _ _ H2) as [k [Hk Hs]].
      exists k. split; [lia|]. now constructor.
    + inversion Et; subst. destruct (IH _ _ H2) as [k [Hk Hs]].
      exists (S k). split; [lia|]. now constructor.
    + inversion Et; subst. destruct (IH _ _ H2) as [k [Hk Hs]].
      exists (S k). split; [lia|]. now constructor.
    + destruct (IH2 Et) as [k [Hk Hs]].
      exists (S k). split; [lia|]. now constructor.
  - remember (b :: t) as t0 eqn:Et. revert Et.
    induction H2 as [|c t1 u m H2 _|c d t1 u m H2 _|c t1 u m H2 _
                     |d t1 u m H2 IH2]; intros Et; try discriminate.
    + inversion Et; subst. destruct (IH _ _ H2) as [k [Hk Hs]].
      exists (S k). split; [lia|]. now constructor.
    + inversion Et; subst. destruct (IH _ _ H2) as [k [Hk Hs]].
      exists (S k). split; [lia|]. now constructor.
    + inversion Et; subst. destruct (IH _ _ H2) as [k [Hk Hs]].
      exists (S k). split; [lia|]. now constructor.
    + destruct (IH2 Et) as [k [Hk Hs]].
      exists (S k). split; [lia|]. now constructor.
  - destruct (IH _ _ H2) as [k [Hk Hs]].
    exists (S k). split; [lia|]. now constructor.
  - remember (b :: t) as t0 eqn:Et. revert Et.
    induction H2 as [|c t1 u m H2 _|c d t1 u m H2 _|c t1 u m H2 _
                     |d t1 u m H2 IH2]; intros Et; try discriminate.
    + inversion Et; subst. destruct (IH _ _ H2) as [k [Hk Hs]].
      exists (S k). split; [lia|]. now constructor.
    + inversion Et; subst. destruct (IH _ _ H2) as [k [Hk Hs]].
      exists (S k). split; [lia|]. now constructor.
    + inversion Et; subst. destruct (IH _ _ H2) as [k [Hk Hs]].
      exists k. split; [lia|]. exact Hs.
    + destruct (IH2 Et) as [k [Hk Hs]].
      exists (S k). split; [lia|]. now constructor.
Qed.

Lemma Lev_triangle s t u :
  Lev_distance s u <= Lev_distance s t + Lev_distance t u.
Proof.
  destruct (edits_compose _ _ _ (Lev_reached s t) _ _ (Lev_reached t u))
    as [k [Hk Hs]].
  apply Lev_least in Hs. lia.
Qed.

(** X15.  The distance [char_distance] returns is zero exactly when its two
    arguments are the same string once their spaces are removed. *)
Theorem char_distance_zero target y_hat :
  fst (char_distance target y_hat) = 0 <->
  remove_spaces target = remove_spaces y_hat.
Proof.
  rewrite char_distance_spec. simpl. split.
  - apply Lev_zero.
  - intros ->. apply Lev_refl.
Qed.

(** X16.  The distance [char_distance] returns is at least the difference
    of the lengths of its arguments without their spaces and at most the
    longer of the two lengths, and the length it returns is that of the
    target without its spaces: the ratio of the two exceeds one only for a
    prediction longer than the target. *)
Theorem char_distance_bounds target y_hat :
  let t := length (remove_spaces target) in
  let y := length (remove_spaces y_hat) in
  snd (char_distance target y_hat) = t /\
  t - y <= fst (char_distance target y_hat) /\
  y - t <= fst (char_distance target y_hat) /\
  fst (char_distance target y_hat) <= Nat.max t y.
Proof.
  rewrite char_distance_spec. simpl.
  pose proof (edits_lengths _ _ _
                (Lev_reached (remove_spaces target) (remove_spaces y_hat))).
  pose proof (Lev_upper (remove_spaces target) (remove_spaces y_hat)).
  lia.
Qed.

(** X17.  The distance [char_distance] returns does not depend on which of
    the two strings is passed as the target. *)
Theorem char_distance_symmetric a b :
  fst (char_distance a b) = fst (char_distance b a).
Proof. rewrite !char_distance_spec. simpl. apply Lev_sym. Qed.

(** X18.  The distance [char_distance] returns obeys the triangle
    inequality. *)
Theorem char_distance_triangle a b c :
  fst (char_distance a c) <=
  fst (char_distance a b) + fst (char_distance b c).
Proof. rewrite !char_distance_spec. simpl. apply Lev_triangle. Qed.

Lemma get_distance_loop_cases id2char eos targets : forall y_hats d l,
  match get_distance_loop targets y_hats id2char eos d l with
  | Ok r =>
      length targets <= length y_hats /\
      get_distance_loop targets (firstn (length targets) y_hats) id2char eos
        d l = Ok r
  | Err e => e = IndexError /\ length y_hats < length targets
  end.
Proof.
  induction targets as [|t targets IH]; intros y_hats d l.
  - simpl. split; [lia|reflexivity].
  - destruct y_hats as [|y y_hats].
    + simpl. split; [reflexivity|lia].
    + cbn [get_distance_loop length firstn].
      destruct (char_distance _ _) as [distance length_].
      specialize (IH y_hats (d + distance) (l + length_)).
      destruct (get_distance_loop targets y_hats id2char eos _ _);
        destruct IH; split; auto; lia.
Qed.

(** X12.  [get_distance] raises an index error exactly when there are fewer
    predictions than targets; otherwise it returns, and predictions beyond
    the number of targets do not count. *)
Theorem get_distance_length_mismatch targets y_hats id2char eos :
  match get_distance targets y_hats id2char eos with
  | Ok r =>
      length targets <= length y_hats /\
      get_distance targets (firstn (length targets) y_hats) id2char eos = Ok r
  | Err e => e = IndexError /\ length y_hats < length targets
  end.
Proof. apply get_distance_loop_cases. Qed.

Lemma get_distance_loop_shift id2char eos targets : forall y_hats d l,
  get_distance_loop targets y_hats id2char eos d l =
  result_bind (get_distance_loop targets y_hats id2char eos 0 0)
    (fun r => Ok (d + fst r, l + snd r)).
Proof.
  induction targets as [|t targets IH]; intros y_hats d l.
  - simpl. now rewrite !Nat.add_0_r.
  - destruct y_hats as [|y y_hats]; [reflexivity|].
    cbn [get_distance_loop].
    destruct (char_distance _ _) as [distance length_].
    rewrite IH, (IH y_hats (0 + distance) (0 + length_)).
    destruct (get_distance_loop targets y_hats id2char eos 0 0) as [[d' l']|e];
      simpl; auto.
    f_equal. f_equal; lia.
Qed.

Lemma get_distance_loop_app id2char eos targets1 : forall y_hats1 d l,
  length y_hats1 = length targets1 ->
  forall targets2 y_hats2,
    get_distance_loop (targets1 ++ targets2) (y_hats1 ++ y_hats2) id2char eos
      d l =
    result_bind (get_distance_loop targets1 y_hats1 id2char eos d l)
      (fun r => get_distance_loop targets2 y_hats2 id2char eos (fst r) (snd r)).
Proof.
  induction targets1 as [|t targets1 IH]; intros y_hats1 d l Hlen t2 y2.
  - destruct y_hats1; [reflexivity|discriminate].
  - destruct y_hats1 as [|y y_hats1]; [discriminate|].
    cbn [app get_distance_loop].
    destruct (char_distance _ _) as [distance length_].
    apply IH. simpl in Hlen. lia.
Qed.

(** X13.  Scoring two batches one after the other and adding the totals is
    scoring their concatenation, when the first batch has as many
    predictions as targets. *)
Theorem get_distance_concatenation
  targets1 y_hats1 targets2 y_hats2 id2char eos :
  length y_hats1 = length targets1 ->
  get_distance (targets1 ++ targets2) (y_hats1 ++ y_hats2) id2char eos =
  result_bind (get_distance targets1 y_hats1 id2char eos) (fun r1 =>
  result_bind (get_distance targets2 y_hats2 id2char eos) (fun r2 =>
  Ok (fst r1 + fst r2, snd r1 + snd r2))).
Proof.
  intros Hlen. unfold get_distance.
  rewrite (get_distance_loop_app _ _ _ _ _ _ Hlen).
  destruct (get_distance_loop targets1 y_hats1 id2char eos 0 0)
    as [[d1 l1]|e]; simpl; auto.
  apply get_distance_loop_shift.
Qed.

(** X14.  Predictions equal to their targets score a total distance of
    zero, and the total length is the number of characters of the targets
    that are not spaces. *)
Theorem get_distance_of_targets targets id2char eos :
  get_distance targets targets id2char eos =
  Ok (0, list_sum
           (map (fun t =>
                   length (remove_spaces (label_to_string t id2char eos)))
              targets)).
Proof.
  unfold get_distance. rewrite get_distance_loop_sums by reflexivity.
  rewrite !Nat.add_0_l. f_equal. f_equal.
  - induction targets as [|t targets IH]; [reflexivity|].
    cbn [combine map fst snd]. rewrite char_distance_spec, Lev_refl.
    cbn [fst list_sum fold_right]. exact IH.
  - induction targets as [|t targets IH]; [reflexivity|].
    cbn [combine map fst snd]. rewrite char_distance_spec.
    cbn [snd list_sum fold_right]. f_equal. exact IH.
Qed.

Lemma get_distance_concatenation_witness :
  length [[1; 2; 0]] = length [[1; 3; 2; 0]] /\
  get_distance ([[1; 3; 2; 0]] ++ [[3; 3]]) ([[1; 2; 0]] ++ [[2]])
    (fun i => if i =? 3 then [space] else [N.of_nat (65 + i)]) 0 =
  Ok (1, 2).
Proof.
  split; [reflexivity|].
  rewrite (get_distance_concatenation [[1; 3; 2; 0]] [[1; 2; 0]] [[3; 3]]
             [[2]] (fun i => if i =? 3 then [space] else [N.of_nat (65 + i)])
             0 eq_refl).
  reflexivity.
Defined.
